(** * TORN-trainer: the rate-limited, fault-tolerant API access layer

    A shallow embedding of [src/utils.py] (the token bucket limiter),
    [src/state/db.py] (the credential table and the audit table) and
    [src/api.py] (the request executor [TornClient._request]).

    Conventions of the embedding.
    - Python floats that hold times and token counts are exact rationals
      ([Q]); rounding is not modelled.
    - Everything the code reads from outside is an explicit input: the
      readings of the monotonic clock, the draws of [random.random()], the
      outcome of every network exchange and the wall clock SQLite sees.
    - The SQLite connection is healthy: its statements succeed. *)

From Stdlib Require Import ZArith QArith Qminmax Lqa Lia Bool Ascii.
From stdpp Require Import base strings list gmap pretty.

Local Open Scope Q_scope.

(** ** [src/utils.py] *)
Module Utils.

(** [small_jitter(base_seconds, jitter_fraction)]; [u] is the value of
    [random.random()] behind [random.uniform(-delta, delta)], which CPython
    computes as [a + (b - a) * random()]. *)
Definition small_jitter (base_seconds jitter_fraction u : Q) : Q :=
  let delta := base_seconds * jitter_fraction in
  Qmax 0 (base_seconds + (- delta + (delta - - delta) * u)).

(** The default of the parameter [jitter_fraction], here and in
    [TokenBucketLimiter.__init__]. *)
Definition default_jitter_fraction : Q := 15 # 100.

(** The fields of [TokenBucketLimiter] ([_clock] and [_lock] carry no data). *)
Record TokenBucketLimiter : Type := mkLimiter {
  capacity : Z;
  tokens : Q;
  refill_rate_per_sec : Q;
  min_spacing : Q;
  jitter_fraction : Q;
  _last_refill : Q;
  _last_acquire : Q
}.

(** [TokenBucketLimiter.__init__]; [now] is the reading of [self._clock.now()]. *)
Definition init (capacity : Z) (refill_rate_per_sec min_spacing jitter_fraction now : Q)
  : TokenBucketLimiter :=
  let cap := Z.max 1 capacity in
  {| capacity := cap;
     tokens := inject_Z cap;
     refill_rate_per_sec := Qmax (1 # 1000) refill_rate_per_sec;
     min_spacing := Qmax 0 min_spacing;
     jitter_fraction := jitter_fraction;
     _last_refill := now;
     _last_acquire := 0 |}.

Definition set_tokens (l : TokenBucketLimiter) (t : Q) : TokenBucketLimiter :=
  {| capacity := capacity l; tokens := t;
     refill_rate_per_sec := refill_rate_per_sec l;
     min_spacing := min_spacing l; jitter_fraction := jitter_fraction l;
     _last_refill := _last_refill l; _last_acquire := _last_acquire l |}.

Definition set_last_refill (l : TokenBucketLimiter) (t : Q) : TokenBucketLimiter :=
  {| capacity := capacity l; tokens := tokens l;
     refill_rate_per_sec := refill_rate_per_sec l;
     min_spacing := min_spacing l; jitter_fraction := jitter_fraction l;
     _last_refill := t; _last_acquire := _last_acquire l |}.

Definition set_last_acquire (l : TokenBucketLimiter) (t : Q) : TokenBucketLimiter :=
  {| capacity := capacity l; tokens := tokens l;
     refill_rate_per_sec := refill_rate_per_sec l;
     min_spacing := min_spacing l; jitter_fraction := jitter_fraction l;
     _last_refill := _last_refill l; _last_acquire := t |}.

(** [TokenBucketLimiter._refill]; [now] is its clock reading. *)
Definition _refill (l : TokenBucketLimiter) (now : Q) : TokenBucketLimiter :=
  let elapsed := now - _last_refill l in
  if Qle_bool elapsed 0 then l
  else set_last_refill
         (set_tokens l (Qmin (inject_Z (capacity l))
                             (tokens l + elapsed * refill_rate_per_sec l)))
         now.

(** What one turn of the [while True] loop of [acquire] reads from outside:
    the clock inside [_refill], the clock for [now], the clock stored in
    [_last_acquire] on a grant, and the random draw of the jittered delay. *)
Record Tick : Type := mkTick {
  t_refill : Q;
  t_now : Q;
  t_grant : Q;
  draw : Q
}.

Inductive Turn : Type :=
| Granted (l : TokenBucketLimiter)
| Sleep (l : TokenBucketLimiter) (delay : Q).

(** One turn of the loop of [acquire]. *)
Definition acquire_turn (l : TokenBucketLimiter) (tk : Tick) : Turn :=
  let l1 := _refill l (t_refill tk) in
  let spacing_needed := min_spacing l1 - (t_now tk - _last_acquire l1) in
  if Qle_bool 1 (tokens l1) && Qle_bool spacing_needed 0 then
    Granted (set_last_acquire (set_tokens l1 (tokens l1 - 1)) (t_grant tk))
  else
    let delay := 5 # 100 in
    let delay :=
      if Qlt_le_dec 0 spacing_needed
      then Qmax delay (small_jitter spacing_needed (jitter_fraction l1) (draw tk))
      else delay in
    Sleep l1 delay.

Definition limiter_of (t : Turn) : TokenBucketLimiter :=
  match t with Granted l => l | Sleep l _ => l end.

(** [acquire]: turns are taken until one grants.  [None] when the supplied
    ticks end before a grant: the call has not completed yet. *)
Fixpoint acquire (l : TokenBucketLimiter) (ticks : list Tick)
  : option (TokenBucketLimiter * list Tick) :=
  match ticks with
  | [] => None
  | tk :: rest =>
      match acquire_turn l tk with
      | Granted l' => Some (l', rest)
      | Sleep l' _ => acquire l' rest
      end
  end.

(** A sequence of [n] calls of [acquire] on one limiter.  The lock makes
    the calls run one after the other, so they share one list of ticks.
    Returns the grant times, in order, and the limiter after the last call. *)
Fixpoint acquire_many (n : nat) (l : TokenBucketLimiter) (ticks : list Tick)
  : option (list Q * TokenBucketLimiter) :=
  match n with
  | O => Some ([], l)
  | S n' =>
      match acquire l ticks with
      | None => None
      | Some (l', rest) =>
          match acquire_many n' l' rest with
          | None => None
          | Some (gs, l'') => Some (_last_acquire l' :: gs, l'')
          end
      end
  end.

(** The clock readings of a list of ticks, in the order the code takes them. *)
Definition readings (ticks : list Tick) : list Q :=
  flat_map (fun tk => [t_refill tk; t_now tk; t_grant tk]) ticks.

(** The contract of [MonotonicClock]: a later reading is not smaller. *)
Fixpoint nondecreasing (ts : list Q) : Prop :=
  match ts with
  | a :: (b :: _) as rest => a <= b /\ nondecreasing rest
  | _ => True
  end.

(** Every two consecutive grant times are at least [d] apart. *)
Fixpoint gaps_at_least (d : Q) (grants : list Q) : Prop :=
  match grants with
  | g1 :: (g2 :: _) as rest => g1 + d <= g2 /\ gaps_at_least d rest
  | _ => True
  end.

(** Spacing permits a grant at every tick: each [now] is at least
    [spacing] after the grant before it, [last] being the first of those. *)
Fixpoint spaced (spacing last : Q) (ticks : list Tick) : Prop :=
  match ticks with
  | [] => True
  | tk :: rest => last + spacing <= t_now tk /\ spaced spacing (t_grant tk) rest
  end.

(** The steps that touch the bucket: a call of [_refill], a turn of the
    loop of [acquire]. *)
Inductive Op : Type :=
| OpRefill (now : Q)
| OpTurn (tk : Tick).

(** Every state of the limiter along a sequence of steps, the state between
    the refill and the debit of a turn included. *)
Fixpoint states (l : TokenBucketLimiter) (ops : list Op) : list TokenBucketLimiter :=
  match ops with
  | [] => [l]
  | OpRefill now :: rest => l :: states (_refill l now) rest
  | OpTurn tk :: rest =>
      l :: _refill l (t_refill tk) :: states (limiter_of (acquire_turn l tk)) rest
  end.

(** The bucket is within its bounds and refills at a positive rate. *)
Definition bucket_ok (l : TokenBucketLimiter) : Prop :=
  0 <= tokens l /\ tokens l <= inject_Z (capacity l) /\ 0 < refill_rate_per_sec l.

End Utils.

Local Open Scope Z_scope.

(** ** Python values the executor handles *)
Module Py.

(** What [json.loads] returns.  A [dict] is the list of its items in
    insertion order, with distinct keys. *)
#[warnings="-register-all"]
Inductive Json : Type :=
| JNull
| JBool (b : bool)
| JInt (z : Z)
| JFloat (q : Q)
| JStr (s : string)
| JArr (l : list Json)
| JObj (items : list (string * Json)).

(** [bool(v)] *)
Definition truthy (v : Json) : bool :=
  match v with
  | JNull => false
  | JBool b => b
  | JInt z => negb (z =? 0)
  | JFloat q => negb (Qeq_bool q 0)
  | JStr s => negb (String.eqb s "")
  | JArr l => match l with [] => false | _ => true end
  | JObj l => match l with [] => false | _ => true end
  end.

(** [d.get(k)] on the items of a dict; [None] is Python's [None]. *)
Fixpoint dict_get (k : string) (items : list (string * Json)) : option Json :=
  match items with
  | [] => None
  | (k', v) :: rest => if String.eqb k k' then Some v else dict_get k rest
  end.

(** [v == n] for an [int] literal [n]: [True == 1] and [2.0 == 2] hold. *)
Definition eq_int (v : Json) (n : Z) : bool :=
  match v with
  | JBool b => (if b then 1 else 0) =? n
  | JInt z => z =? n
  | JFloat q => Qeq_bool q (inject_Z n)
  | _ => false
  end.

(** [v in (n1, n2, ...)] *)
Definition in_ints (v : Json) (ns : list Z) : bool :=
  existsb (eq_int v) ns.

(** [needle in s] on strings. *)
Fixpoint contains (needle s : string) : bool :=
  String.prefix needle s ||
  match s with
  | EmptyString => false
  | String _ s' => contains needle s'
  end.

(** [s.split(sep)[0]]: the part of [s] before the first [sep], all of [s]
    when [sep] does not occur. *)
Fixpoint before (sep s : string) : string :=
  if String.prefix sep s then EmptyString
  else match s with
       | EmptyString => EmptyString
       | String c s' => String c (before sep s')
       end.

(** [d[k] = v] on the items of a dict: in place when [k] is there, at the
    end otherwise. *)
Fixpoint dict_set (k v : string) (items : list (string * string))
  : list (string * string) :=
  match items with
  | [] => [(k, v)]
  | (k', v') :: rest =>
      if String.eqb k k' then (k, v) :: rest else (k', v') :: dict_set k v rest
  end.

(** [d.update(e)] *)
Definition dict_update (items e : list (string * string)) : list (string * string) :=
  fold_left (fun d kv => dict_set (fst kv) (snd kv) d) e items.

(** Whether the text [needle] occurs in a string of the value, the keys of
    its dicts included. *)
Fixpoint mentions (needle : string) (v : Json) : bool :=
  match v with
  | JStr s => contains needle s
  | JArr l => existsb (mentions needle) l
  | JObj items =>
      existsb (fun kv => contains needle (fst kv) || mentions needle (snd kv)) items
  | _ => false
  end.

End Py.

(** ** [src/state/db.py] *)
Module Db.

(** The value of SQLite's [datetime('now')], in seconds; SQLite renders it
    as a text of nineteen characters, which Python finds true. *)
Definition Timestamp : Type := N.

(** A row of the table [keys] without its primary key [id]. *)
Record KeyRow : Type := mkKeyRow {
  key : string;
  disabled_at : option Timestamp
}.

(** A row of the table [actions] without its autoincremented [id].  The two
    JSON columns hold the value that [json.dumps] is given, or [None]. *)
Record ActionRow : Type := mkActionRow {
  timestamp : Timestamp;
  action_type : string;
  payload : option Py.Json;
  result_json : option Py.Json
}.

(** The tables of the connection the executor uses. *)
Record Conn : Type := mkConn {
  keys : gmap string KeyRow;
  actions : list ActionRow
}.

(** [log_action]; [now] is [datetime('now')]. *)
Definition log_action (conn : Conn) (action_type : string)
    (payload result : Py.Json) (now : Timestamp) : Conn :=
  {| keys := keys conn;
     actions := actions conn ++
       [ {| timestamp := now;
            action_type := action_type;
            payload := if Py.truthy payload then Some payload else None;
            result_json := if Py.truthy result then Some result else None |} ] |}.

(** [mark_key_disabled]: [INSERT OR REPLACE] on the primary key. *)
Definition mark_key_disabled (conn : Conn) (key_id api_key : string)
    (now : Timestamp) : Conn :=
  {| keys := <[ key_id := {| key := api_key; disabled_at := Some now |} ]> (keys conn);
     actions := actions conn |}.

(** [is_key_disabled]: [bool(row and row[0])]. *)
Definition is_key_disabled (conn : Conn) (key_id : string) : bool :=
  match keys conn !! key_id with
  | Some row => match disabled_at row with Some _ => true | None => false end
  | None => false
  end.

(** The table [snapshots]: the column [json] by the primary key [ts]. *)
Abbreviation Snapshots := (gmap Timestamp string).

(** The table [market_watch] by its primary key [item_id]; the three
    [REAL] columns may be [NULL]. *)
Record WatchRow : Type := mkWatchRow {
  buy_threshold : option Q;
  sell_threshold : option Q;
  last_seen_price : option Q
}.

Abbreviation MarketWatch := (gmap Z WatchRow).

(** The row with the greatest key of a list of rows: [ORDER BY ts DESC
    LIMIT 1]. *)
Definition latest (rows : list (Timestamp * string)) : option (Timestamp * string) :=
  foldr (fun kv acc =>
           match acc with
           | Some (k', v') => if (k' <? fst kv)%N then Some kv else Some (k', v')
           | None => Some kv
           end) None rows.

Section Snapshot.

(** [json.dumps], and [json.loads] with [None] when it raises. *)
Variable json_dumps : Py.Json -> string.
Variable json_loads : string -> option Py.Json.

(** [save_snapshot]: [INSERT OR REPLACE] on the primary key [ts], which is
    [datetime('now')]. *)
Definition save_snapshot (tbl : Snapshots) (data : Py.Json) (now : Timestamp)
  : Snapshots :=
  <[ now := json_dumps data ]> tbl.

(** [get_last_snapshot]: Python's [None] is [JNull]; the result is [None]
    when [json.loads] raises. *)
Definition get_last_snapshot (tbl : Snapshots) : option Py.Json :=
  match latest (map_to_list tbl) with
  | None => Some Py.JNull
  | Some (_, text) => json_loads text
  end.

End Snapshot.



End Db.

(** ** [src/api.py] *)
Module Api.

Definition TORN_BASE : string := "https://api.torn.com".

(** Exceptions that leave [_request]. *)
Inductive Exn : Type :=
| TornAPIError (msg : string)
| HTTPStatusError (status_code : Z)   (* raised by [resp.raise_for_status()] *)
| TransportError (exc : string)       (* the network error, re-raised; [exc] is [str(exc)] *)
| AttributeError.                     (* [.get] on an [error] member that is no dict *)

Inductive Result : Type :=
| Return (data : Py.Json)
| Raise (e : Exn).

(** What the executor does to the outside, in order. *)
Inductive Event : Type :=
| LimiterAcquire                                        (* [await self.limiter.acquire()] *)
| HttpGet (url : string) (params : list (string * string))  (* [self._client.get] *)
| LogInfo (line : string)                               (* [self.log.info] *)
| AsyncSleep (seconds : Q).                             (* [asyncio.sleep] *)

(** The outcome of one [self._client.get]. *)
Inductive Exchange : Type :=
| Failed (exc : string)
| Response (status_code : Z) (text : string).

(** What one turn of the retry loop reads from outside. *)
Record Attempt : Type := mkAttempt {
  exchange : Exchange;
  backoff_draw : Q;             (* [random.random()] of the backoff *)
  audit_time : Db.Timestamp;    (* [datetime('now')] of [log_action] *)
  disable_time : Db.Timestamp   (* [datetime('now')] of [mark_key_disabled] *)
}.

(** The fields of [TornClient] that [_request] reads or writes, the
    connection with its tables, and the journal of events so far. *)
Record TornClient : Type := mkClient {
  api_key : string;
  user_id : option string;
  conn : Db.Conn;
  _auth_failures : Z;
  journal : list Event
}.

Definition emit (c : TornClient) (e : Event) : TornClient :=
  {| api_key := api_key c; user_id := user_id c; conn := conn c;
     _auth_failures := _auth_failures c; journal := journal c ++ [e] |}.

Definition set_conn (c : TornClient) (d : Db.Conn) : TornClient :=
  {| api_key := api_key c; user_id := user_id c; conn := d;
     _auth_failures := _auth_failures c; journal := journal c |}.

Definition set_auth_failures (c : TornClient) (n : Z) : TornClient :=
  {| api_key := api_key c; user_id := user_id c; conn := conn c;
     _auth_failures := n; journal := journal c |}.

(** The limiter that [TornClient.__init__] builds (lines 47-54);
    [jitter_fraction] keeps its default. *)
Definition init_limiter (max_requests_per_min : Z) (min_spacing_seconds now : Q)
  : Utils.TokenBucketLimiter :=
  let capacity := Z.min 100 (Z.max 1 max_requests_per_min) in
  let refill_rate := (inject_Z capacity / 60)%Q in
  Utils.init capacity refill_rate min_spacing_seconds Utils.default_jitter_fraction now.

(** The rest of [TornClient.__init__]. *)
Definition init (api_key : string) (user_id : option string) (conn : Db.Conn)
  : TornClient :=
  {| api_key := api_key; user_id := user_id; conn := conn;
     _auth_failures := 0; journal := [] |}.

(** [_redact_query] *)
Definition _redact_query (url : string) : string :=
  if Py.contains "key=" url then Py.before "key=" url +:+ "key=REDACTED" else url.

(** [self.user_id or "default"] *)
Definition key_id (c : TornClient) : string :=
  match user_id c with
  | Some u => if String.eqb u "" then "default" else u
  | None => "default"
  end.

(** [_log_api]: the log line, then the audit row. *)
Definition _log_api (c : TornClient) (url : string) (status : Z)
    (result : Py.Json) (now : Db.Timestamp) : TornClient :=
  let redacted := _redact_query url in
  let c := emit c (LogInfo ("API " +:+ pretty status +:+ " GET " +:+ redacted)) in
  set_conn c
    (Db.log_action (conn c) "api_request"
       (Py.JObj [("url", Py.JStr redacted)])
       (Py.JObj [("status", Py.JInt status); ("result", result)])
       now).

(** httpx's [raise_for_status]: it raises unless the status is a 2xx. *)
Definition raise_for_status (status : Z) : bool :=
  negb ((200 <=? status) && (status <? 300)).

Definition max_attempts : Z := 5.
Definition base_backoff : Q := 1.

(** [small_jitter(base_backoff * (2 ** (attempt - 1)))] *)
Definition backoff (attempt : Z) (u : Q) : Q :=
  Utils.small_jitter (base_backoff * inject_Z (2 ^ (attempt - 1)))
                     Utils.default_jitter_fraction u.

(** Lines 104-106 and 114-116: one more auth failure, and the key is
    marked disabled from the third on. *)
Definition count_auth_failure (c : TornClient) (now : Db.Timestamp) : TornClient :=
  let c := set_auth_failures c (_auth_failures c + 1) in
  if 3 <=? _auth_failures c
  then set_conn c (Db.mark_key_disabled (conn c) (key_id c) (api_key c) now)
  else c.

Section Executor.

(** [json.loads]: the parsed value, [None] when it raises. *)
Variable json_loads : string -> option Py.Json.
(** The percent-encoding httpx applies to the names and values of [params]. *)
Variable quote : string -> string.

(** [_safe_json] *)
Definition _safe_json (text : string) : Py.Json :=
  match json_loads text with
  | Some v => v
  | None => Py.JObj [("raw", Py.JStr (String.substring 0 500 text))]
  end.

(** [str(resp.request.url)]: the url with the query httpx makes of [params]. *)
Definition request_url (url : string) (params : list (string * string)) : string :=
  url +:+ "?" +:+
  String.concat "&" (map (fun kv => quote (fst kv) +:+ "=" +:+ quote (snd kv)) params).

(** Lines 109-118: the payload of a response that is neither transient nor
    raised as 401/403. *)
Definition check_payload (c : TornClient) (a : Attempt) (text : string)
  : Result * TornClient :=
  let data := _safe_json text in
  match data with
  | Py.JObj items =>
      match Py.dict_get "error" items with
      | Some err =>
          if Py.truthy err then
            match err with
            | Py.JObj eitems =>
                let code := default Py.JNull (Py.dict_get "code" eitems) in
                if Py.in_ints code [1; 2; 10; 11]
                then (Return data, count_auth_failure c (disable_time a))
                else (Return data, c)
            | _ => (Raise AttributeError, c)
            end
          else (Return data, c)
      | None => (Return data, c)
      end
  | _ => (Return data, c)
  end.

(** Lines 103-118: a response that is not transient. *)
Definition settle (c : TornClient) (a : Attempt) (status : Z) (text : string)
  : Result * TornClient :=
  if (status =? 401) || (status =? 403) then
    let c := count_auth_failure c (disable_time a) in
    if raise_for_status status then (Raise (HTTPStatusError status), c)
    else check_payload c a text
  else check_payload c a text.

(** Line 95: the statuses that are retried. *)
Definition is_transient (status : Z) : bool :=
  (status =? 429) || ((500 <=? status) && (status <? 600)).

(** How one turn of the [while True] loop ends: the call is over, or the
    loop continues with a new attempt count. *)
Inductive Turn : Type :=
| Done (r : Result) (c : TornClient)
| Again (c : TornClient) (attempt : Z).

(** Lines 80-118: one turn of the loop. *)
Definition turn (c : TornClient) (url : string) (params : list (string * string))
    (attempt : Z) (a : Attempt) : Turn :=
  let c := emit c LimiterAcquire in
  let c := emit c (HttpGet url params) in
  match exchange a with
  | Failed exc =>
      let attempt := attempt + 1 in
      if max_attempts <=? attempt then
        Done (Raise (TransportError exc))
             (_log_api c url (-1) (Py.JObj [("error", Py.JStr exc)]) (audit_time a))
      else
        Again (emit c (AsyncSleep (backoff attempt (backoff_draw a)))) attempt
  | Response status text =>
      let c := _log_api c (request_url url params) status (_safe_json text)
                        (audit_time a) in
      if is_transient status then
        let attempt := attempt + 1 in
        if (max_attempts <=? attempt) && raise_for_status status then
          Done (Raise (HTTPStatusError status)) c
        else
          Again (emit c (AsyncSleep (backoff attempt (backoff_draw a)))) attempt
      else
        let (r, c) := settle c a status text in Done r c
  end.

(** Lines 79-118: the loop, one attempt of the script per turn.  [None]
    when the script ends before the call does. *)
Fixpoint retry_loop (c : TornClient) (url : string) (params : list (string * string))
    (attempt : Z) (script : list Attempt) : option (Result * TornClient) :=
  match script with
  | [] => None
  | a :: rest =>
      match turn c url params attempt a with
      | Done r c' => Some (r, c')
      | Again c' attempt' => retry_loop c' url params attempt' rest
      end
  end.

(** Lines 64-73: the parameters and the url of the request. *)
Definition build_params (c : TornClient) (selections : option string)
    (extra_params : option (list (string * string))) : list (string * string) :=
  let params := [("key", api_key c)] in
  let params :=
    match selections with
    | Some s => if String.eqb s "" then params else Py.dict_set "selections" s params
    | None => params
    end in
  match extra_params with
  | Some e => Py.dict_update params e
  | None => params
  end.

Definition build_url (section : string) (id_part : option string) : string :=
  let path := "/" +:+ section in
  let path :=
    match id_part with
    | Some i => if String.eqb i "" then path else path +:+ "/" +:+ i
    | None => path
    end in
  TORN_BASE +:+ path.

(** [TornClient._request] *)
Definition _request (c : TornClient) (section : string) (id_part selections : option string)
    (extra_params : option (list (string * string))) (script : list Attempt)
  : option (Result * TornClient) :=
  if String.eqb (api_key c) "" then
    Some (Raise (TornAPIError "API key required"), c)
  else if Db.is_key_disabled (conn c) (key_id c) then
    Some (Raise (TornAPIError "API key marked disabled. Aborting."), c)
  else
    retry_loop c (build_url section id_part) (build_params c selections extra_params)
               0 script.

(** One logical call: the arguments of [_request] and what the outside
    answers during it. *)
Record Call : Type := mkCall {
  section : string;
  id_part : option string;
  selections : option string;
  extra_params : option (list (string * string));
  script : list Attempt
}.

(** Logical calls on one executor, one after the other. *)
Fixpoint run_calls (c : TornClient) (calls : list Call)
  : option (list Result * TornClient) :=
  match calls with
  | [] => Some ([], c)
  | k :: rest =>
      match _request c (section k) (id_part k) (selections k) (extra_params k)
                     (script k) with
      | None => None
      | Some (r, c') =>
          match run_calls c' rest with
          | None => None
          | Some (rs, c'') => Some (r :: rs, c'')
          end
      end
  end.

(** The audit row [_log_api] writes. *)
Definition audit_row (url : string) (status : Z) (result : Py.Json)
    (now : Db.Timestamp) : Db.ActionRow :=
  {| Db.timestamp := now;
     Db.action_type := "api_request";
     Db.payload := Some (Py.JObj [("url", Py.JStr (_redact_query url))]);
     Db.result_json :=
       Some (Py.JObj [("status", Py.JInt status); ("result", result)]) |}.

(** The log line [_log_api] writes. *)
Definition log_line (url : string) (status : Z) : string :=
  "API " +:+ pretty status +:+ " GET " +:+ _redact_query url.

(** The audit rows of the attempts a call has made: one for each attempt
    that received a response, one with status [-1] for a network failure
    that is the last attempt of the call, none for any other network
    failure. *)
Fixpoint expected_audit (url : string) (params : list (string * string))
    (made : list Attempt) : list Db.ActionRow :=
  match made with
  | [] => []
  | a :: rest =>
      match exchange a with
      | Response status text =>
          [audit_row (request_url url params) status (_safe_json text) (audit_time a)]
      | Failed exc =>
          match rest with
          | [] => [audit_row url (-1) (Py.JObj [("error", Py.JStr exc)]) (audit_time a)]
          | _ => []
          end
      end ++ expected_audit url params rest
  end.

(** The log lines of the attempts a call has made, attempt by attempt as
    for [expected_audit]. *)
Fixpoint expected_lines (url : string) (params : list (string * string))
    (made : list Attempt) : list string :=
  match made with
  | [] => []
  | a :: rest =>
      match exchange a with
      | Response status _ => [log_line (request_url url params) status]
      | Failed _ => match rest with [] => [log_line url (-1)] | _ => [] end
      end ++ expected_lines url params rest
  end.

End Executor.

(** The truthy [error] member of a payload that is a dict. *)
Definition error_member (data : Py.Json) : option Py.Json :=
  match data with
  | Py.JObj items =>
      match Py.dict_get "error" items with
      | Some err => if Py.truthy err then Some err else None
      | None => None
      end
  | _ => None
  end.

(** The payload has the shape of the wire: its [error] member, when it has
    a truthy one, is a dict. *)
Definition wire_shaped (data : Py.Json) : bool :=
  match error_member data with
  | Some (Py.JObj _) => true
  | Some _ => false
  | None => true
  end.

(** The payload carries an error whose code is an auth/permission code. *)
Definition auth_error (data : Py.Json) : bool :=
  match error_member data with
  | Some (Py.JObj eitems) =>
      Py.in_ints (default Py.JNull (Py.dict_get "code" eitems)) [1; 2; 10; 11]
  | _ => false
  end.

(** Texts and a parser for the worked examples: [loads_example] is
    [json.loads] on the texts the examples use, none of the others being
    JSON. *)
Definition dq : string := String "034"%char EmptyString.

Definition body_ok : string := "{" +:+ dq +:+ "ok" +:+ dq +:+ ": true}".

Definition body_code2 : string :=
  "{" +:+ dq +:+ "error" +:+ dq +:+ ": {" +:+ dq +:+ "code" +:+ dq +:+ ": 2}}".

Definition loads_example (text : string) : option Py.Json :=
  if String.eqb text body_ok then Some (Py.JObj [("ok", Py.JBool true)])
  else if String.eqb text body_code2
       then Some (Py.JObj [("error", Py.JObj [("code", Py.JInt 2)])])
       else None.

(** A response attempt of the examples. *)
Definition answer (status : Z) (text : string) : Attempt :=
  {| exchange := Response status text; backoff_draw := (1 # 2)%Q;
     audit_time := 1000%N; disable_time := 1000%N |}.

(** A failed attempt of the examples. *)
Definition failure (exc : string) : Attempt :=
  {| exchange := Failed exc; backoff_draw := (1 # 2)%Q;
     audit_time := 1000%N; disable_time := 1000%N |}.

(** A new client of the examples, on empty tables. *)
Definition client_example : TornClient :=
  init "TEST" (Some "123") {| Db.keys := ∅; Db.actions := [] |}.

Definition is_get (e : Event) : bool :=
  match e with HttpGet _ _ => true | _ => false end.

Definition is_acquire (e : Event) : bool :=
  match e with LimiterAcquire => true | _ => false end.

(** The network exchanges and the limiter permits in a journal. *)
Definition exchanges (c : TornClient) : nat := length (List.filter is_get (journal c)).
Definition permits (c : TornClient) : nat := length (List.filter is_acquire (journal c)).

(** The log lines in a journal. *)
Definition log_lines (c : TornClient) : list string :=
  flat_map (fun e => match e with LogInfo line => [line] | _ => [] end) (journal c).

(** The status of the response of an attempt, if it got one. *)
Definition status_of (a : Attempt) : option Z :=
  match exchange a with
  | Response status _ => Some status
  | Failed _ => None
  end.

(** The status an attempt is logged with. *)
Definition logged_status (a : Attempt) : Z :=
  match exchange a with
  | Response status _ => status
  | Failed _ => -1
  end.

(** Whether the text [needle] occurs in the JSON columns of an audit row. *)
Definition row_mentions (needle : string) (row : Db.ActionRow) : bool :=
  match Db.payload row with Some v => Py.mentions needle v | None => false end ||
  match Db.result_json row with Some v => Py.mentions needle v | None => false end.

(** The redacted target of an attempt, from the section and the id alone. *)
Definition redacted_target (section : string) (id_part : option string)
    (a : Attempt) : string :=
  match exchange a with
  | Response _ _ =>
      Py.before "key=" (build_url section id_part +:+ "?key=") +:+ "key=REDACTED"
  | Failed _ => _redact_query (build_url section id_part)
  end.

(** The line and the [payload] column an attempt is logged with, from the
    section, the id and the status alone. *)
Definition public_line (section : string) (id_part : option string)
    (a : Attempt) : string :=
  "API " +:+ pretty (logged_status a) +:+ " GET " +:+ redacted_target section id_part a.

Definition public_payload (section : string) (id_part : option string)
    (a : Attempt) : option Py.Json :=
  Some (Py.JObj [("url", Py.JStr (redacted_target section id_part a))]).

(** A client of the examples whose credential the store shows disabled. *)
Definition client_disabled_example : TornClient :=
  init "TEST" (Some "123")
       {| Db.keys := {[ "123" := {| Db.key := "TEST"; Db.disabled_at := Some 900%N |} ]};
          Db.actions := [] |}.

(** A call of the examples: [get_user("bars")] answered by [script]. *)
Definition call_example (script : list Attempt) : Call :=
  {| section := "user"; id_part := Some "123"; selections := Some "bars";
     extra_params := None; script := script |}.

(** The store holds the row [mark_key_disabled] writes for the client:
    its identifier, its credential and a timestamp. *)
Definition marked_disabled (c : TornClient) : Prop :=
  exists t, Db.keys (conn c) !! key_id c =
            Some {| Db.key := api_key c; Db.disabled_at := Some t |}.

(** The error of a call on a disabled credential. *)
Definition auth_disabled_error : Exn :=
  TornAPIError "API key marked disabled. Aborting.".

(** C6 as the specification words it: between [c] and [c'] every exchange
    has one audit row. *)
Definition one_record_per_attempt (c c' : TornClient) : Prop :=
  length (Db.actions (conn c')) =
  (length (Db.actions (conn c)) + (exchanges c' - exchanges c))%nat.

(** C8 as the specification words it: the credential occurs in no log line
    and in no audit row of [c']. *)
Definition never_verbatim (c' : TornClient) : Prop :=
  Forall (fun line => Py.contains (api_key c') line = false) (log_lines c') /\
  Forall (fun row => row_mentions (api_key c') row = false) (Db.actions (conn c')).

(** The attempts of a call that are logged: those with a response, and a
    network failure that is the last attempt. *)
Fixpoint logged (made : list Attempt) : list Attempt :=
  match made with
  | [] => []
  | a :: rest =>
      match exchange a with
      | Response _ _ => [a]
      | Failed _ => match rest with [] => [a] | _ => [] end
      end ++ logged rest
  end.

(** The endpoints of the client. *)
Inductive Endpoint : Type :=
| GetUser (selections : string)
| GetGym
| GetCrimeInfo
| GetCrimeCooldowns
| GetMarketItem (item_id : Z) (selections : string).

(** [get_user], [get_gym], [get_crime_info], [get_crime_cooldowns] and
    [get_market_item]. *)
Definition call_endpoint (json_loads : string -> option Py.Json)
    (quote : string -> string) (c : TornClient) (e : Endpoint)
    (script : list Attempt) : option (Result * TornClient) :=
  let uid := match user_id c with Some u => u | None => "" end in
  match e with
  | GetUser selections =>
      if String.eqb uid ""
      then Some (Raise (TornAPIError "USER_ID required for user endpoint"), c)
      else _request json_loads quote c "user" (Some uid) (Some selections) None script
  | GetGym =>
      if String.eqb uid ""
      then Some (Raise (TornAPIError "USER_ID required for gym endpoint"), c)
      else _request json_loads quote c "user" (Some uid) (Some "gym") None script
  | GetCrimeInfo =>
      _request json_loads quote c "torn" None (Some "crimes") None script
  | GetCrimeCooldowns =>
      if String.eqb uid ""
      then Some (Raise (TornAPIError "USER_ID required for cooldowns endpoint"), c)
      else _request json_loads quote c "user" (Some uid) (Some "cooldowns") None script
  | GetMarketItem item_id selections =>
      _request json_loads quote c "market" (Some (pretty item_id)) (Some selections)
               None script
  end.

(** [do_train]: the plan is logged and returned. *)
Definition do_train (c : TornClient) (slot points : Z) (dry_run : bool)
    (now : Db.Timestamp) : Py.Json * TornClient :=
  let uid := match user_id c with Some u => u | None => "None" end in
  let plan :=
    Py.JObj [("action", Py.JStr "train");
             ("slot", Py.JInt slot);
             ("points", Py.JInt points);
             ("dry_run", Py.JBool dry_run);
             ("curl", Py.JStr ("curl '" +:+ TORN_BASE +:+ "/user/" +:+ uid +:+
                               "?selections=gym&key=REDACTED' # example read-only gym fetch"))] in
  (plan,
   set_conn c (Db.log_action (conn c) "plan_train" plan
                             (Py.JObj [("planned", Py.JBool true)]) now)).

(** The attempt ends in a network failure or in a transient status. *)
Definition retryable (a : Attempt) : bool :=
  match exchange a with
  | Failed _ => true
  | Response status _ => is_transient status
  end.

(** The exception a retryable attempt raises when it is the fifth. *)
Definition error_of (a : Attempt) : Exn :=
  match exchange a with
  | Failed exc => TransportError exc
  | Response status _ => HTTPStatusError status
  end.

(** The seconds of the backoff sleeps in a journal, summed. *)
Definition slept (c : TornClient) : Q :=
  fold_right (fun e acc => match e with AsyncSleep d => (d + acc)%Q | _ => acc end)
             0%Q (journal c).

(** [_request] on the arguments and the script of a call. *)
Definition perform (json_loads : string -> option Py.Json) (quote : string -> string)
    (c : TornClient) (k : Call) : option (Result * TornClient) :=
  _request json_loads quote c (section k) (id_part k) (selections k)
           (extra_params k) (script k).

(** The call receives a 401 or a 403 at its attempt [n + 1], the [n]
    attempts before it, fewer than five, being retried: the next attempt
    that is not retried is answered 401 or 403, by [a]. *)
Definition rejected_at (k : Call) (n : nat) (a : Attempt) : Prop :=
  exists pre rest,
    script k = pre ++ a :: rest /\
    Forall (fun b => retryable b = true) pre /\
    length pre = n /\ (n < 5)%nat /\
    (status_of a = Some 401 \/ status_of a = Some 403).

(** A body of the examples whose [error] member is a text, and
    [json.loads] on it. *)
Definition body_error_text : string :=
  "{" +:+ dq +:+ "error" +:+ dq +:+ ": " +:+ dq +:+ "bad" +:+ dq +:+ "}".

Definition loads_error_text (text : string) : option Py.Json :=
  if String.eqb text body_error_text
  then Some (Py.JObj [("error", Py.JStr "bad")])
  else None.

End Api.

(** ** [src/trainer.py]: the helper that reads the bazaar *)
Module Trainer.

(** [c.get(k)], with Python's [None] as [JNull]. *)
Definition get (k : string) (items : list (string * Py.Json)) : Py.Json :=
  default Py.JNull (Py.dict_get k items).

(** The value of a Python number; [None] for what is no [int], [float] or
    [bool]. *)
Definition as_number (v : Py.Json) : option Q :=
  match v with
  | Py.JInt z => Some (inject_Z z)
  | Py.JFloat q => Some q
  | Py.JBool b => Some (if b then 1 else 0)%Q
  | _ => None
  end.

(** [min(prices)] on a list that starts with [q]: the first of the
    smallest. *)
Definition list_min (q : Q) (qs : list Q) : Q :=
  fold_left (fun m x => if Qlt_le_dec x m then x else m) qs q.

Section Floats.

(** [float(s)] on a string; [None] when it raises [ValueError].  Strings
    that spell an infinity or a NaN are outside the model, as floats are
    rationals here. *)
Variable float_of_str : string -> option Q.

(** [float(v)]; [None] when it raises. *)
Definition to_float (v : Py.Json) : option Q :=
  match v with
  | Py.JStr s => float_of_str s
  | _ => as_number v
  end.

(** The list comprehension of [_extract_lowest_bazaar_price]; [None] when
    an entry makes it raise. *)
Fixpoint prices_of (bazaar : list Py.Json) : option (list Q) :=
  match bazaar with
  | [] => Some []
  | Py.JObj items :: rest =>
      match Py.dict_get "price" items with
      | None | Some Py.JNull => prices_of rest
      | Some v =>
          match to_float v with
          | Some q =>
              match prices_of rest with
              | Some qs => Some (q :: qs)
              | None => None
              end
          | None => None
          end
      end
  | _ :: _ => None
  end.

(** [_extract_lowest_bazaar_price]; [None] is Python's [None]. *)
Definition _extract_lowest_bazaar_price (info : Py.Json) : option Q :=
  let bazaar := match info with
                | Py.JObj items => get "bazaar" items
                | _ => Py.JNull
                end in
  match bazaar with
  | Py.JArr (e :: es) =>
      match prices_of (e :: es) with
      | Some (q :: qs) => Some (list_min q qs)
      | Some [] => None
      | None => None
      end
  | _ => None
  end.

End Floats.

End Trainer.

(** ** [src/run_trainer.py] *)
Module RunTrainer.

(** The limiter of the client [_build_client] makes: the argument is
    clamped before [TornClient.__init__] clamps it. *)
Definition _build_client_limiter (max_requests_per_min : Z)
    (min_spacing_seconds now : Q) : Utils.TokenBucketLimiter :=
  Api.init_limiter (Z.min 100 (Z.max 1 max_requests_per_min)) min_spacing_seconds now.

End RunTrainer.

(** * Properties *)

Import Utils Py Db Api.

(** ** The token bucket *)
Section Limiter.

Local Open Scope Q_scope.

Lemma Qle_bool_true (a b : Q) : Qle_bool a b = true -> a <= b.
Proof. apply Qle_bool_iff. Qed.

Lemma Qle_bool_false (a b : Q) : Qle_bool a b = false -> b < a.
Proof.
  intros H. apply Qnot_le_lt. intros Hle.
  apply Qle_bool_iff in Hle. congruence.
Qed.

Lemma init_ok cap rate ms jf now : bucket_ok (Utils.init cap rate ms jf now).
Proof.
  unfold bucket_ok, Utils.init; simpl. repeat split.
  - change 0 with (inject_Z 0). rewrite <- Zle_Qle. lia.
  - apply Qle_refl.
  - apply Qlt_le_trans with (1 # 1000); [reflexivity | apply Q.le_max_l].
Qed.

Lemma refill_ok l now : bucket_ok l -> bucket_ok (_refill l now).
Proof.
  intros (H0 & Hc & Hr). unfold _refill.
  destruct (Qle_bool (now - _last_refill l) 0) eqn:E; [repeat split; assumption|].
  apply Qle_bool_false in E. unfold bucket_ok; simpl. repeat split; try assumption.
  - apply Q.min_glb.
    + apply Qle_trans with (tokens l); assumption.
    + assert (0 <= (now - _last_refill l) * refill_rate_per_sec l).
      { apply Qmult_le_0_compat; apply Qlt_le_weak; assumption. }
      lra.
  - apply Q.le_min_l.
Qed.

Lemma refill_tokens_ge l now : bucket_ok l -> tokens l <= tokens (_refill l now).
Proof.
  intros (H0 & Hc & Hr). unfold _refill.
  destruct (Qle_bool (now - _last_refill l) 0) eqn:E; [apply Qle_refl|].
  apply Qle_bool_false in E. simpl. apply Q.min_glb; [assumption|].
  assert (0 <= (now - _last_refill l) * refill_rate_per_sec l).
  { apply Qmult_le_0_compat; apply Qlt_le_weak; assumption. }
  lra.
Qed.

Lemma refill_keeps l now :
  capacity (_refill l now) = capacity l /\
  min_spacing (_refill l now) = min_spacing l /\
  jitter_fraction (_refill l now) = jitter_fraction l /\
  _last_acquire (_refill l now) = _last_acquire l.
Proof. unfold _refill. destruct (Qle_bool _ _); simpl; auto. Qed.

(** What a turn does to the bucket, case by case. *)
Lemma acquire_turn_cases l tk :
  let l1 := _refill l (t_refill tk) in
  (acquire_turn l tk =
     Granted (set_last_acquire (set_tokens l1 (tokens l1 - 1)) (t_grant tk)) /\
   1 <= tokens l1 /\ _last_acquire l + min_spacing l <= t_now tk) \/
  (exists d, acquire_turn l tk = Sleep l1 d /\
             (tokens l1 < 1 \/ t_now tk < _last_acquire l + min_spacing l)).
Proof.
  intros l1. unfold acquire_turn. fold l1.
  destruct (refill_keeps l (t_refill tk)) as (_ & Hm & _ & Ha). fold l1 in Hm, Ha.
  destruct (Qle_bool 1 (tokens l1)) eqn:E1; simpl.
  - destruct (Qle_bool (min_spacing l1 - (t_now tk - _last_acquire l1)) 0) eqn:E2.
    + left. apply Qle_bool_true in E1, E2. rewrite Hm, Ha in E2.
      repeat split; [assumption | lra].
    + right. eexists. split; [reflexivity|]. right.
      apply Qle_bool_false in E2. rewrite Hm, Ha in E2. lra.
  - right. eexists. split; [reflexivity|]. left. apply Qle_bool_false in E1. exact E1.
Qed.

Lemma turn_ok l tk : bucket_ok l -> bucket_ok (limiter_of (acquire_turn l tk)).
Proof.
  intros H. pose proof (refill_ok l (t_refill tk) H) as (H0 & Hc & Hr).
  destruct (acquire_turn_cases l tk) as [(-> & H1 & _) | (d & -> & _)]; simpl.
  - unfold bucket_ok; simpl. repeat split; [lra | lra | assumption].
  - repeat split; assumption.
Qed.

Lemma states_ok ops : forall l, bucket_ok l -> Forall bucket_ok (states l ops).
Proof.
  induction ops as [|[now|tk] ops IH]; intros l H; simpl.
  - constructor; [assumption | constructor].
  - constructor; [assumption|]. apply IH, refill_ok, H.
  - constructor; [assumption|]. constructor; [apply refill_ok, H|].
    apply IH, turn_ok, H.
Qed.

(** C4: from construction on, along every sequence of refill and acquire
    steps, the token count stays between zero and the capacity; a refill
    never leaves more than the capacity, and a turn debits one token only
    when at least one is there and debits nothing otherwise. *)
Theorem tokens_within_capacity (cap : Z) (rate ms jf now : Q) (ops : list Op) :
  Forall
    (fun l =>
       (0 <= tokens l /\ tokens l <= inject_Z (capacity l)) /\
       (forall now', tokens (_refill l now') <= inject_Z (capacity l)) /\
       (forall tk,
          let l1 := _refill l (t_refill tk) in
          match acquire_turn l tk with
          | Granted l' => 1 <= tokens l1 /\ tokens l' == tokens l1 - 1
          | Sleep l' _ => tokens l' == tokens l1
          end))
    (states (Utils.init cap rate ms jf now) ops).
Proof.
  eapply Forall_impl; [apply states_ok, init_ok |].
  intros l H. split; [| split].
  - destruct H as (H0 & Hc & _). split; assumption.
  - intros now'. destruct (refill_keeps l now') as (Hcap & _).
    rewrite <- Hcap. apply (refill_ok l now' H).
  - intros tk l1.
    destruct (acquire_turn_cases l tk) as [(-> & H1 & _) | (d & -> & _)]; simpl.
    + split; [exact H1 | reflexivity].
    + reflexivity.
Qed.

Lemma nondecreasing_tick tk rest :
  nondecreasing (readings (tk :: rest)) ->
  t_now tk <= t_grant tk /\ nondecreasing (readings rest).
Proof.
  unfold readings; simpl. intros (_ & H2 & H3). split; [exact H2|].
  destruct (flat_map _ rest); [exact I | apply H3].
Qed.

(** A completed [acquire] grants no sooner than [min_spacing] after the
    grant before it. *)
Lemma acquire_spacing ticks : forall l l' rest,
  nondecreasing (readings ticks) ->
  acquire l ticks = Some (l', rest) ->
  _last_acquire l + min_spacing l <= _last_acquire l' /\
  min_spacing l' = min_spacing l /\
  nondecreasing (readings rest).
Proof.
  induction ticks as [|tk ticks IH]; intros l l' rest Hm Ha; [discriminate|].
  apply nondecreasing_tick in Hm as (Hng & Hm). simpl in Ha.
  destruct (refill_keeps l (t_refill tk)) as (_ & Hms & _ & Hla).
  destruct (acquire_turn_cases l tk) as [(E & _ & Hsp) | (d & E & _)];
    rewrite E in Ha.
  - injection Ha as <- <-. simpl. repeat split; [lra | exact Hms | exact Hm].
  - apply IH in Ha; [| exact Hm]. rewrite Hms, Hla in Ha. exact Ha.
Qed.

Lemma acquire_many_spacing n : forall l ticks gs l',
  nondecreasing (readings ticks) ->
  acquire_many n l ticks = Some (gs, l') ->
  gaps_at_least (min_spacing l) (_last_acquire l :: gs).
Proof.
  induction n as [|n IH]; intros l ticks gs l' Hm Ha; simpl in Ha.
  - injection Ha as <- _. exact I.
  - destruct (acquire l ticks) as [[l1 rest]|] eqn:E1; [|discriminate].
    destruct (acquire_many n l1 rest) as [[gs1 l2]|] eqn:E2; [|discriminate].
    injection Ha as <- _.
    destruct (acquire_spacing _ _ _ _ Hm E1) as (Hgap & Hms & Hm').
    specialize (IH _ _ _ _ Hm' E2). rewrite Hms in IH.
    split; [exact Hgap | exact IH].
Qed.

Lemma gaps_weaken d d' gs : d' <= d -> gaps_at_least d gs -> gaps_at_least d' gs.
Proof.
  intros Hd. induction gs as [|g1 [|g2 gs] IH]; simpl; auto.
  intros (H1 & H2). split; [lra | apply IH, H2].
Qed.

Lemma gaps_tail d g gs : gaps_at_least d (g :: gs) -> gaps_at_least d gs.
Proof. destruct gs; simpl; [auto | intros (_ & H); exact H]. Qed.

(** C3: on one limiter, with a jitter fraction that is not negative and a
    clock that never runs backwards, any two consecutive grants of a
    sequence of completed [acquire] calls are at least
    [min_spacing * (1 - jitter_fraction)] apart. *)
Theorem grant_spacing (cap : Z) (rate ms jf now : Q) (n : nat)
    (ticks : list Tick) (grants : list Q) (l' : TokenBucketLimiter) :
  let l0 := Utils.init cap rate ms jf now in
  0 <= jf ->
  nondecreasing (readings ticks) ->
  acquire_many n l0 ticks = Some (grants, l') ->
  gaps_at_least (min_spacing l0 * (1 - jitter_fraction l0)) grants.
Proof.
  intros l0 Hjf Hm Ha.
  apply gaps_tail with (g := _last_acquire l0).
  apply gaps_weaken with (d := min_spacing l0);
    [| eapply acquire_many_spacing; eassumption].
  assert (0 <= min_spacing l0) by apply Q.le_max_l.
  change (jitter_fraction l0) with jf.
  assert (0 <= min_spacing l0 * jf) by (apply Qmult_le_0_compat; assumption).
  lra.
Qed.

Lemma grant_spacing_witness :
  let l0 := Utils.init 2 1 1 (15 # 100) 0 in
  exists grants l',
    acquire_many 2 l0 [mkTick 10 10 10 0; mkTick 11 11 11 0] = Some (grants, l') /\
    gaps_at_least (min_spacing l0 * (1 - jitter_fraction l0)) grants.
Proof.
  intros l0. eexists. eexists. split.
  - vm_compute. reflexivity.
  - eapply (grant_spacing 2 1 1 (15 # 100) 0 2
              [mkTick 10 10 10 0; mkTick 11 11 11 0]).
    + vm_compute. discriminate.
    + vm_compute. repeat split; discriminate.
    + vm_compute. reflexivity.
Defined.

(** A full enough bucket grants at every tick that spacing permits. *)
Lemma burst ticks : forall l,
  bucket_ok l ->
  inject_Z (Z.of_nat (length ticks)) <= tokens l ->
  spaced (min_spacing l) (_last_acquire l) ticks ->
  exists l', acquire_many (length ticks) l ticks = Some (map t_grant ticks, l').
Proof.
  induction ticks as [|tk ticks IH]; intros l Hok Hlen Hsp.
  - exists l. reflexivity.
  - destruct Hsp as (Hsp1 & Hsp2).
    pose proof (refill_tokens_ge l (t_refill tk) Hok) as Hge.
    pose proof (turn_ok l tk Hok) as Hok'.
    destruct (refill_keeps l (t_refill tk)) as (_ & Hms & _ & _).
    assert (Hs : inject_Z (Z.of_nat (length (tk :: ticks)))
                 == inject_Z (Z.of_nat (length ticks)) + 1).
    { simpl length. rewrite Nat2Z.inj_succ. unfold Z.succ.
      rewrite inject_Z_plus. reflexivity. }
    rewrite Hs in Hlen.
    assert (0 <= inject_Z (Z.of_nat (length ticks))).
    { change 0 with (inject_Z 0). rewrite <- Zle_Qle. lia. }
    destruct (acquire_turn_cases l tk) as [(E & _ & _) | (d & _ & [Hlt | Hlt])];
      [| lra | lra].
    rewrite E in Hok'. simpl in Hok'.
    destruct (IH _ Hok') as (l'' & Hl'').
    + simpl. lra.
    + simpl. rewrite Hms. exact Hsp2.
    + exists l''. simpl. rewrite E. simpl in Hl''. rewrite Hl''. reflexivity.
Qed.

(** C10: whatever [max_requests_per_min] is, the limiter of a new client
    has its capacity clamped into 1..100, refills [capacity / 60] tokens a
    second and starts full; it then grants at every tick of a run of at most
    [capacity] ticks that spacing permits, refill or no refill. *)
Theorem client_limiter_capacity (max_requests_per_min : Z) (min_spacing_seconds now : Q) :
  let l0 := init_limiter max_requests_per_min min_spacing_seconds now in
  capacity l0 = Z.min 100 (Z.max 1 max_requests_per_min) /\
  (1 <= capacity l0 <= 100)%Z /\
  refill_rate_per_sec l0 == inject_Z (capacity l0) / 60 /\
  tokens l0 = inject_Z (capacity l0) /\
  forall ticks,
    (Z.of_nat (length ticks) <= capacity l0)%Z ->
    spaced (min_spacing l0) (_last_acquire l0) ticks ->
    exists l', acquire_many (length ticks) l0 ticks = Some (map t_grant ticks, l').
Proof.
  intros l0.
  assert (Hcap : capacity l0 = Z.min 100 (Z.max 1 max_requests_per_min)).
  { unfold l0, init_limiter, Utils.init; simpl. lia. }
  assert (Hrange : (1 <= capacity l0 <= 100)%Z) by lia.
  split; [exact Hcap|]. split; [exact Hrange|]. split; [| split].
  - unfold l0, init_limiter, Utils.init; simpl.
    set (c := Z.min 100 (Z.max 1 max_requests_per_min)).
    replace (Z.max 1 c) with c by lia.
    apply Q.max_r.
    assert (1 <= inject_Z c).
    { change 1 with (inject_Z 1). rewrite <- Zle_Qle. lia. }
    apply Qle_shift_div_l; [reflexivity|].
    apply Qle_trans with 1; [discriminate | assumption].
  - reflexivity.
  - intros ticks Hlen Hsp.
    apply burst; [apply init_ok | | exact Hsp].
    change (tokens l0) with (inject_Z (capacity l0)).
    rewrite <- Zle_Qle. exact Hlen.
Qed.

Lemma client_limiter_capacity_witness :
  let l0 := init_limiter 500 1 0 in
  let ticks := [mkTick 5 5 5 0; mkTick 6 6 6 0; mkTick 7 7 7 0] in
  capacity l0 = 100%Z /\
  exists l', acquire_many 3 l0 ticks = Some ([5; 6; 7], l').
Proof.
  intros l0 ticks.
  destruct (client_limiter_capacity 500 1 0) as (Hc & _ & _ & _ & Hb).
  split; [exact Hc|].
  apply (Hb ticks).
  - vm_compute. discriminate.
  - vm_compute. repeat split; discriminate.
Defined.

End Limiter.

(** ** The request executor *)
Section ExecutorFacts.

Variable json_loads : string -> option Json.
Variable quote : string -> string.

Local Open Scope Z_scope.

Local Abbreviation _request := (Api._request json_loads quote).
Local Abbreviation retry_loop := (Api.retry_loop json_loads quote).
Local Abbreviation turn := (Api.turn json_loads quote).
Local Abbreviation settle := (Api.settle json_loads).
Local Abbreviation check_payload := (Api.check_payload json_loads).
Local Abbreviation _safe_json := (Api._safe_json json_loads).

(** *** What the helpers leave alone *)

Lemma count_auth_failure_keeps c now :
  let c' := count_auth_failure c now in
  api_key c' = api_key c /\ user_id c' = user_id c /\ journal c' = journal c /\
  actions (conn c') = actions (conn c) /\
  _auth_failures c' = _auth_failures c + 1.
Proof.
  unfold count_auth_failure; simpl.
  destruct (3 <=? _auth_failures c + 1); simpl; auto.
Qed.

Lemma count_auth_failure_keys c now :
  keys (conn (count_auth_failure c now)) =
  if 3 <=? _auth_failures c + 1
  then <[ key_id c := {| key := api_key c; disabled_at := Some now |} ]> (keys (conn c))
  else keys (conn c).
Proof.
  unfold count_auth_failure; simpl.
  destruct (3 <=? _auth_failures c + 1); reflexivity.
Qed.

(** [check_payload] through the three predicates on payloads. *)
Lemma check_payload_spec c a text :
  check_payload c a text =
  if wire_shaped (_safe_json text) then
    (Return (_safe_json text),
     if auth_error (_safe_json text) then count_auth_failure c (disable_time a) else c)
  else (Raise AttributeError, c).
Proof.
  unfold Api.check_payload, wire_shaped, auth_error, error_member.
  destruct (_safe_json text) as [| | | | | |items]; try reflexivity.
  destruct (dict_get "error" items) as [err|]; [|reflexivity].
  destruct (truthy err) eqn:Et; [|reflexivity].
  destruct err; try reflexivity.
  destruct (in_ints _ _); reflexivity.
Qed.

Lemma raise_for_status_auth status :
  (status =? 401) || (status =? 403) = true -> raise_for_status status = true.
Proof. unfold raise_for_status. intros H. lia. Qed.

Lemma raise_for_status_transient status :
  is_transient status = true -> raise_for_status status = true.
Proof. unfold is_transient, raise_for_status. intros H. lia. Qed.

Lemma settle_keeps c a status text r c' :
  settle c a status text = (r, c') ->
  api_key c' = api_key c /\ user_id c' = user_id c /\ journal c' = journal c /\
  actions (conn c') = actions (conn c).
Proof.
  unfold Api.settle. intros H.
  pose proof (count_auth_failure_keeps c (disable_time a)) as (K1 & K2 & K3 & K4 & _).
  destruct ((status =? 401) || (status =? 403)) eqn:E.
  - rewrite (raise_for_status_auth _ E) in H. injection H as <- <-. auto.
  - rewrite check_payload_spec in H.
    destruct (wire_shaped _); [destruct (auth_error _)|];
      injection H as <- <-; auto.
Qed.

Lemma exchanges_app c c' evs :
  journal c' = journal c ++ evs ->
  exchanges c' = (exchanges c + length (List.filter is_get evs))%nat /\
  permits c' = (permits c + length (List.filter is_acquire evs))%nat /\
  log_lines c' = log_lines c ++
    flat_map (fun e => match e with LogInfo line => [line] | _ => [] end) evs.
Proof.
  intros H. unfold exchanges, permits, log_lines. rewrite H.
  rewrite !List.filter_app, !List.length_app, List.flat_map_app. auto.
Qed.

(** *** One turn of the loop *)

(** A turn that ends the call. *)
Lemma turn_done c url params attempt a r c' :
  turn c url params attempt a = Done r c' ->
  api_key c' = api_key c /\ user_id c' = user_id c /\
  journal c' = journal c ++ [LimiterAcquire; HttpGet url params] ++
               map LogInfo (expected_lines quote url params [a]) /\
  actions (conn c') = actions (conn c) ++ expected_audit json_loads quote url params [a].
Proof.
  unfold Api.turn. intros H. simpl expected_lines. simpl expected_audit.
  destruct (exchange a) as [exc|status text].
  - destruct (max_attempts <=? attempt + 1); [|discriminate].
    injection H as <- <-. simpl. rewrite <- !app_assoc. auto.
  - destruct (is_transient status) eqn:Et.
    + destruct ((max_attempts <=? attempt + 1) && raise_for_status status);
        [|discriminate].
      injection H as <- <-. simpl. rewrite <- !app_assoc. auto.
    + destruct (Api.settle _ _ _ _ _) as [r0 c0] eqn:Es. injection H as <- <-.
      apply settle_keeps in Es as (K1 & K2 & K3 & K4).
      rewrite K1, K2, K3, K4. simpl. rewrite <- !app_assoc. auto.
Qed.

(** A turn after which the loop goes on: the attempt was a network failure
    or a transient status, and it was not the fifth. *)
Lemma turn_again c url params attempt a c' attempt' :
  turn c url params attempt a = Again c' attempt' ->
  attempt' = attempt + 1 /\ attempt' < max_attempts /\
  api_key c' = api_key c /\ user_id c' = user_id c /\
  _auth_failures c' = _auth_failures c /\ keys (conn c') = keys (conn c) /\
  match exchange a with
  | Failed _ =>
      journal c' = journal c ++ [LimiterAcquire; HttpGet url params;
                                 AsyncSleep (backoff attempt' (backoff_draw a))] /\
      actions (conn c') = actions (conn c)
  | Response status text =>
      is_transient status = true /\
      journal c' = journal c ++ [LimiterAcquire; HttpGet url params;
                                 LogInfo (log_line (request_url quote url params) status);
                                 AsyncSleep (backoff attempt' (backoff_draw a))] /\
      actions (conn c') = actions (conn c) ++
        [audit_row (request_url quote url params) status (_safe_json text) (audit_time a)]
  end.
Proof.
  unfold Api.turn. intros H.
  destruct (exchange a) as [exc|status text].
  - destruct (max_attempts <=? attempt + 1) eqn:E; [discriminate|].
    injection H as <- <-. simpl. rewrite <- !app_assoc.
    repeat split; auto. lia.
  - destruct (is_transient status) eqn:Et.
    + rewrite (raise_for_status_transient _ Et), andb_true_r in H.
      destruct (max_attempts <=? attempt + 1) eqn:E; [discriminate|].
      injection H as <- <-. simpl. rewrite <- !app_assoc.
      repeat split; auto. lia.
    + destruct (Api.settle _ _ _ _ _). discriminate.
Qed.

(** *** The loop *)

(** What a completed loop has done: it has taken a non-empty prefix of the
    script, one permit and one exchange per attempt of it, and has written
    the expected log lines and audit rows. *)
Lemma retry_loop_made script : forall c url params attempt r c',
  retry_loop c url params attempt script = Some (r, c') ->
  exists made rest,
    script = made ++ rest /\ made <> [] /\
    api_key c' = api_key c /\ user_id c' = user_id c /\
    exchanges c' = (exchanges c + length made)%nat /\
    permits c' = (permits c + length made)%nat /\
    log_lines c' = log_lines c ++ expected_lines quote url params made /\
    actions (conn c') =
      actions (conn c) ++ expected_audit json_loads quote url params made.
Proof.
  induction script as [|a script IH]; intros c url params attempt r c' H;
    [discriminate|].
  simpl in H. destruct (Api.turn _ _ _ _ _ _ _) as [r0 c0|c0 attempt0] eqn:Et.
  - injection H as <- <-. exists [a], script.
    apply turn_done in Et as (K1 & K2 & K3 & K4).
    apply exchanges_app in K3 as (E1 & E2 & E3).
    rewrite E1, E2, E3, K4. simpl expected_lines. simpl expected_audit.
    split; [reflexivity|]. split; [discriminate|].
    repeat split; auto.
    + destruct (exchange a); reflexivity.
    + destruct (exchange a); reflexivity.
    + destruct (exchange a); reflexivity.
  - apply IH in H as (made & rest & -> & Hne & K1 & K2 & E1 & E2 & E3 & E4).
    apply turn_again in Et as (_ & _ & A1 & A2 & _ & _ & Hj).
    exists (a :: made), rest.
    split; [reflexivity|]. split; [discriminate|].
    rewrite K1, K2, E1, E2, E3, E4.
    destruct made as [|b made]; [congruence|].
    destruct (exchange a) as [exc|status text] eqn:Ea.
    + destruct Hj as (Hj & Ha). apply exchanges_app in Hj as (J1 & J2 & J3).
      rewrite J1, J2, J3, Ha.
      cbn [expected_lines expected_audit]. rewrite Ea. simpl.
      rewrite app_nil_r. repeat split; auto; lia.
    + destruct Hj as (_ & Hj & Ha). apply exchanges_app in Hj as (J1 & J2 & J3).
      rewrite J1, J2, J3, Ha.
      cbn [expected_lines expected_audit]. rewrite Ea. simpl.
      rewrite <- !app_assoc. repeat split; auto; lia.
Qed.

(** The loop is over within five attempts. *)
Lemma retry_loop_total script : forall c url params attempt,
  (max_attempts - attempt <= Z.of_nat (length script)) ->
  (0 < length script)%nat ->
  exists r c', retry_loop c url params attempt script = Some (r, c').
Proof.
  induction script as [|a script IH]; intros c url params attempt Hlen Hpos;
    [simpl in Hpos; lia|].
  simpl. destruct (Api.turn _ _ _ _ _ _ _) as [r0 c0|c0 attempt0] eqn:Et.
  - eauto.
  - apply turn_again in Et as (-> & Hlt & _).
    apply IH; simpl length in *; lia.
Qed.

(** *** Single steps of a call *)

Lemma request_no_key c section id_part selections extra_params script :
  api_key c = "" ->
  _request c section id_part selections extra_params script =
  Some (Raise (TornAPIError "API key required"), c).
Proof. intros H. unfold Api._request. rewrite H. reflexivity. Qed.

Lemma eqb_empty_false (s : string) : s <> "" -> String.eqb s "" = false.
Proof. intros H. apply String.eqb_neq. exact H. Qed.

Lemma request_disabled c section id_part selections extra_params script :
  api_key c <> "" ->
  is_key_disabled (conn c) (key_id c) = true ->
  _request c section id_part selections extra_params script =
  Some (Raise (TornAPIError "API key marked disabled. Aborting."), c).
Proof.
  intros Hk Hd. unfold Api._request.
  rewrite (eqb_empty_false _ Hk), Hd. reflexivity.
Qed.

Lemma request_ready c section id_part selections extra_params script :
  api_key c <> "" ->
  is_key_disabled (conn c) (key_id c) = false ->
  _request c section id_part selections extra_params script =
  retry_loop c (build_url section id_part) (build_params c selections extra_params)
             0 script.
Proof.
  intros Hk Hd. unfold Api._request.
  rewrite (eqb_empty_false _ Hk), Hd. reflexivity.
Qed.

(** A call always comes to an end when the outside answers five attempts. *)
Lemma request_total c section id_part selections extra_params script :
  (5 <= length script)%nat ->
  exists r c', _request c section id_part selections extra_params script = Some (r, c').
Proof.
  intros Hlen. unfold Api._request.
  destruct (String.eqb (api_key c) ""); [eauto|].
  destruct (is_key_disabled (conn c) (key_id c)); [eauto|].
  apply retry_loop_total; unfold max_attempts; lia.
Qed.

(** C9: a call on a client without a credential fails at once with the
    configuration error, and a call whose credential the store shows
    disabled fails at once with the auth-disabled error; either way the
    client is returned as it was, so no permit has been acquired and no
    exchange made. *)
Theorem precheck_fails_fast c section id_part selections extra_params script :
  (api_key c = "" ->
   _request c section id_part selections extra_params script =
   Some (Raise (TornAPIError "API key required"), c)) /\
  (api_key c <> "" -> is_key_disabled (conn c) (key_id c) = true ->
   _request c section id_part selections extra_params script =
   Some (Raise (TornAPIError "API key marked disabled. Aborting."), c)) /\
  (api_key c = "" \/ is_key_disabled (conn c) (key_id c) = true ->
   forall r c',
     _request c section id_part selections extra_params script = Some (r, c') ->
     permits c' = permits c /\ exchanges c' = exchanges c /\ conn c' = conn c).
Proof.
  split; [apply request_no_key|]. split; [apply request_disabled|].
  intros H r c' Hr.
  assert (c' = c) as ->; [|auto].
  destruct (decide (api_key c = "")) as [Hk|Hk].
  - rewrite request_no_key in Hr by exact Hk. congruence.
  - destruct H as [H|H]; [contradiction|].
    rewrite request_disabled in Hr by assumption. congruence.
Qed.

(** What a turn that logs a response leaves in the client before the
    status is looked at. *)
Lemma logged_response c url params a status text :
  let c1 := _log_api (emit (emit c LimiterAcquire) (HttpGet url params))
                     (request_url quote url params) status (_safe_json text)
                     (audit_time a) in
  api_key c1 = api_key c /\ user_id c1 = user_id c /\
  _auth_failures c1 = _auth_failures c /\ keys (conn c1) = keys (conn c) /\
  exchanges c1 = S (exchanges c) /\ permits c1 = S (permits c).
Proof.
  simpl. unfold exchanges, permits. simpl.
  rewrite !List.filter_app, !List.length_app. simpl.
  repeat split; auto; lia.
Qed.

(** A transient status before the fifth attempt: the loop goes on. *)
Lemma loop_retries c url params attempt a rest status text :
  exchange a = Response status text ->
  is_transient status = true ->
  attempt + 1 < max_attempts ->
  exists c1,
    retry_loop c url params attempt (a :: rest) =
    retry_loop c1 url params (attempt + 1) rest /\
    api_key c1 = api_key c /\ user_id c1 = user_id c /\
    _auth_failures c1 = _auth_failures c /\ keys (conn c1) = keys (conn c) /\
    exchanges c1 = S (exchanges c) /\ permits c1 = S (permits c).
Proof.
  intros Ha Ht Hlt. eexists. split.
  - simpl. unfold Api.turn. rewrite Ha, Ht.
    replace (max_attempts <=? attempt + 1) with false by lia. simpl. reflexivity.
  - destruct (logged_response c url params a status text)
      as (K1 & K2 & K3 & K4 & K5 & K6).
    unfold exchanges, permits in *. simpl in *.
    rewrite !List.filter_app, !List.length_app in *. simpl in *.
    repeat split; auto; lia.
Qed.

(** A transient status at the fifth attempt: the call raises. *)
Lemma loop_exhausted c url params attempt a rest status text :
  exchange a = Response status text ->
  is_transient status = true ->
  max_attempts <= attempt + 1 ->
  exists c1,
    retry_loop c url params attempt (a :: rest) =
    Some (Raise (HTTPStatusError status), c1) /\
    exchanges c1 = S (exchanges c) /\ permits c1 = S (permits c).
Proof.
  intros Ha Ht Hge. eexists. split.
  - simpl. unfold Api.turn. rewrite Ha, Ht, (raise_for_status_transient _ Ht).
    replace (max_attempts <=? attempt + 1) with true by lia. simpl. reflexivity.
  - destruct (logged_response c url params a status text)
      as (_ & _ & _ & _ & K5 & K6). auto.
Qed.

(** A 401 or a 403: the failure is counted and the call raises. *)
Lemma loop_auth_status c url params attempt a rest status text :
  exchange a = Response status text ->
  status = 401 \/ status = 403 ->
  exists c1,
    retry_loop c url params attempt (a :: rest) =
    Some (Raise (HTTPStatusError status), c1) /\
    api_key c1 = api_key c /\ user_id c1 = user_id c /\
    _auth_failures c1 = _auth_failures c + 1 /\
    keys (conn c1) =
      (if 3 <=? _auth_failures c + 1
       then <[ key_id c := {| key := api_key c; disabled_at := Some (disable_time a) |} ]>
              (keys (conn c))
       else keys (conn c)) /\
    exchanges c1 = S (exchanges c) /\ permits c1 = S (permits c).
Proof.
  intros Ha Hs. eexists. split.
  - simpl. unfold Api.turn. rewrite Ha.
    replace (is_transient status) with false by (unfold is_transient; lia).
    unfold Api.settle.
    replace ((status =? 401) || (status =? 403)) with true by lia.
    replace (raise_for_status status) with true by (unfold raise_for_status; lia).
    reflexivity.
  - destruct (logged_response c url params a status text)
      as (K1 & K2 & K3 & K4 & K5 & K6).
    set (c0 := _log_api _ _ _ _ _) in *.
    destruct (count_auth_failure_keeps c0 (disable_time a)) as (C1 & C2 & C3 & _ & C5).
    rewrite count_auth_failure_keys.
    unfold exchanges, permits in *. rewrite C3.
    unfold key_id. rewrite K1, K2, K3, K4, C1, C2, C5.
    repeat split; auto; rewrite K3; reflexivity.
Qed.

(** Any other status: the payload is looked at, and returned when it has
    the shape of the wire; an auth error in it is counted. *)
Lemma loop_payload c url params attempt a rest status text :
  exchange a = Response status text ->
  is_transient status = false ->
  status <> 401 -> status <> 403 ->
  wire_shaped (_safe_json text) = true ->
  exists c1,
    retry_loop c url params attempt (a :: rest) =
    Some (Return (_safe_json text), c1) /\
    api_key c1 = api_key c /\ user_id c1 = user_id c /\
    _auth_failures c1 =
      _auth_failures c + (if auth_error (_safe_json text) then 1 else 0) /\
    keys (conn c1) =
      (if auth_error (_safe_json text) && (3 <=? _auth_failures c + 1)
       then <[ key_id c := {| key := api_key c; disabled_at := Some (disable_time a) |} ]>
              (keys (conn c))
       else keys (conn c)) /\
    exchanges c1 = S (exchanges c) /\ permits c1 = S (permits c).
Proof.
  intros Ha Ht H401 H403 Hw. eexists. split.
  - simpl. unfold Api.turn. rewrite Ha, Ht. unfold Api.settle.
    replace ((status =? 401) || (status =? 403)) with false by lia.
    rewrite check_payload_spec, Hw. reflexivity.
  - destruct (logged_response c url params a status text)
      as (K1 & K2 & K3 & K4 & K5 & K6).
    set (c0 := _log_api _ _ _ _ _) in *.
    destruct (auth_error (_safe_json text)).
    + destruct (count_auth_failure_keeps c0 (disable_time a))
        as (C1 & C2 & C3 & _ & C5).
      rewrite count_auth_failure_keys.
      unfold exchanges, permits in *. rewrite C3.
      unfold key_id. rewrite K1, K2, K3, K4, C1, C2, C5. simpl.
      repeat split; auto; rewrite K3; reflexivity.
    + simpl. rewrite Z.add_0_r. repeat split; auto.
Qed.

Lemma status_of_response a status :
  status_of a = Some status -> exists text, exchange a = Response status text.
Proof.
  unfold status_of. destruct (exchange a) as [|s text]; [discriminate|].
  intros [= ->]. eauto.
Qed.

(** X21: with the credential configured and not disabled, a call that is
    answered 429, 429, 200 makes exactly three exchanges and returns the
    payload of the 200 when that payload has the shape of the wire; a call
    that is answered 429 five times raises the HTTP error of the 429 after
    exactly five exchanges, whatever else the network would have answered. *)
Theorem retry_on_429 c section id_part selections extra_params :
  api_key c <> "" ->
  is_key_disabled (conn c) (key_id c) = false ->
  (forall a1 a2 a3 rest text,
     status_of a1 = Some 429 -> status_of a2 = Some 429 ->
     exchange a3 = Response 200 text ->
     wire_shaped (_safe_json text) = true ->
     exists c',
       _request c section id_part selections extra_params (a1 :: a2 :: a3 :: rest) =
       Some (Return (_safe_json text), c') /\
       exchanges c' = (exchanges c + 3)%nat) /\
  (forall a1 a2 a3 a4 a5 rest,
     Forall (fun a => status_of a = Some 429) [a1; a2; a3; a4; a5] ->
     exists c',
       _request c section id_part selections extra_params
                (a1 :: a2 :: a3 :: a4 :: a5 :: rest) =
       Some (Raise (HTTPStatusError 429), c') /\
       exchanges c' = (exchanges c + 5)%nat).
Proof.
  intros Hk Hd. split.
  - intros a1 a2 a3 rest text H1 H2 H3 Hw.
    apply status_of_response in H1 as (t1 & H1), H2 as (t2 & H2).
    rewrite request_ready by assumption.
    edestruct (loop_retries c) as (c1 & -> & _ & _ & _ & _ & E1 & _);
      [exact H1 | reflexivity | reflexivity |].
    edestruct (loop_retries c1) as (c2 & -> & _ & _ & _ & _ & E2 & _);
      [exact H2 | reflexivity | reflexivity |].
    edestruct (loop_payload c2) as (c3 & -> & _ & _ & _ & _ & E3 & _);
      [exact H3 | reflexivity | discriminate | discriminate | exact Hw |].
    exists c3. split; [reflexivity | lia].
  - intros a1 a2 a3 a4 a5 rest Hall.
    repeat match goal with
           | H : Forall _ (_ :: _) |- _ => apply Forall_cons in H as [? H]
           end.
    repeat match goal with
           | H : status_of _ = Some 429 |- _ => apply status_of_response in H as (? & H)
           end.
    rewrite request_ready by assumption.
    edestruct (loop_retries c) as (c1 & -> & _ & _ & _ & _ & E1 & _);
      [eassumption | reflexivity | reflexivity |].
    edestruct (loop_retries c1) as (c2 & -> & _ & _ & _ & _ & E2 & _);
      [eassumption | reflexivity | reflexivity |].
    edestruct (loop_retries c2) as (c3 & -> & _ & _ & _ & _ & E3 & _);
      [eassumption | reflexivity | reflexivity |].
    edestruct (loop_retries c3) as (c4 & -> & _ & _ & _ & _ & E4 & _);
      [eassumption | reflexivity | reflexivity |].
    edestruct (loop_exhausted c4) as (c5 & -> & E5 & _);
      [eassumption | reflexivity | simpl; unfold max_attempts; lia |].
    exists c5. split; [reflexivity | lia].
Qed.

(** *** Three strikes *)

Lemma marked_is_disabled c : marked_disabled c -> is_key_disabled (conn c) (key_id c) = true.
Proof. intros (t & Ht). unfold is_key_disabled. rewrite Ht. reflexivity. Qed.

(** A call whose first attempt is rejected, on a credential that is not
    disabled: one more failure, and the row is written from the third on. *)
(** A retryable attempt before the fifth: the loop goes on after one
    exchange, with the counter and the keys as they were. *)
Lemma loop_goes_on c url params attempt a rest :
  retryable a = true ->
  attempt + 1 < max_attempts ->
  exists c1,
    retry_loop c url params attempt (a :: rest) =
    retry_loop c1 url params (attempt + 1) rest /\
    api_key c1 = api_key c /\ user_id c1 = user_id c /\
    _auth_failures c1 = _auth_failures c /\ keys (conn c1) = keys (conn c) /\
    exchanges c1 = S (exchanges c).
Proof.
  unfold retryable. intros Hr Hlt.
  destruct (exchange a) as [exc|status text] eqn:Ea.
  - eexists. split.
    + simpl. unfold Api.turn. rewrite Ea.
      replace (max_attempts <=? attempt + 1) with false by lia. reflexivity.
    + unfold exchanges. simpl. rewrite !List.filter_app, !List.length_app. simpl.
      repeat split; auto; lia.
  - destruct (loop_retries c url params attempt a rest status text Ea Hr Hlt)
      as (c1 & E & K1 & K2 & K3 & K4 & K5 & _).
    exists c1. auto 10.
Qed.

(** The retried attempts at the head of a script. *)
Lemma loop_skips_retried pre : forall c url params attempt tail,
  Forall (fun b => retryable b = true) pre ->
  attempt + Z.of_nat (length pre) < max_attempts ->
  exists c1,
    retry_loop c url params attempt (pre ++ tail) =
    retry_loop c1 url params (attempt + Z.of_nat (length pre)) tail /\
    api_key c1 = api_key c /\ user_id c1 = user_id c /\
    _auth_failures c1 = _auth_failures c /\ keys (conn c1) = keys (conn c) /\
    exchanges c1 = (exchanges c + length pre)%nat.
Proof.
  induction pre as [|b pre IH]; intros c url params attempt tail Hall Hlt.
  - exists c. cbn [length app]. rewrite Z.add_0_r. repeat split; auto.
  - apply Forall_cons in Hall as [Hb Hall]. cbn [length] in *.
    destruct (loop_goes_on c url params attempt b (pre ++ tail) Hb)
      as (c1 & E1 & K1 & K2 & K3 & K4 & K5); [lia|].
    destruct (IH c1 url params (attempt + 1) tail Hall) as (c2 & E2 & J1 & J2 & J3 & J4 & J5);
      [lia|].
    exists c2. split.
    + change ((b :: pre) ++ tail) with (b :: pre ++ tail). rewrite E1, E2.
      f_equal. lia.
    + repeat split; try congruence. lia.
Qed.

(** A call that is rejected at its attempt [n + 1], on a credential that
    is not disabled: [n + 1] exchanges, one more failure, and the row is
    written from the third failure on. *)
Lemma rejected_call c k n a :
  api_key c <> "" ->
  is_key_disabled (conn c) (key_id c) = false ->
  rejected_at k n a ->
  exists status c1,
    (status = 401 \/ status = 403) /\
    perform json_loads quote c k = Some (Raise (HTTPStatusError status), c1) /\
    api_key c1 = api_key c /\ user_id c1 = user_id c /\
    _auth_failures c1 = _auth_failures c + 1 /\
    keys (conn c1) =
      (if 3 <=? _auth_failures c + 1
       then <[ key_id c := {| key := api_key c; disabled_at := Some (disable_time a) |} ]>
              (keys (conn c))
       else keys (conn c)) /\
    exchanges c1 = (exchanges c + n + 1)%nat.
Proof.
  intros Hk Hd (pre & rest & Hs & Hall & Hlen & Hn & Hst).
  assert (exists status text, exchange a = Response status text /\
                              (status = 401 \/ status = 403))
    as (status & text & Ha & Hs').
  { destruct Hst as [Hr|Hr]; apply status_of_response in Hr as (text & Hr); eauto. }
  unfold perform. rewrite request_ready by assumption. rewrite Hs.
  destruct (loop_skips_retried pre c (build_url (section k) (id_part k))
              (build_params c (selections k) (extra_params k)) 0 (a :: rest) Hall)
    as (c0 & E0 & K1 & K2 & K3 & K4 & K5); [unfold max_attempts; lia|].
  rewrite E0.
  edestruct (loop_auth_status c0) as (c1 & -> & J1 & J2 & J3 & J4 & J5 & _);
    [exact Ha | exact Hs' |].
  exists status, c1. split; [exact Hs'|]. split; [reflexivity|].
  assert (Hid : key_id c0 = key_id c) by (unfold key_id; rewrite K2; reflexivity).
  rewrite Hid, K1, K3, K4 in J4. rewrite K3 in J3.
  repeat split; try congruence. lia.
Qed.

(** Whether the key is disabled after a counted failure. *)
Lemma strike_keys c c1 t :
  is_key_disabled (conn c) (key_id c) = false ->
  api_key c1 = api_key c -> user_id c1 = user_id c ->
  keys (conn c1) =
    (if 3 <=? _auth_failures c + 1
     then <[ key_id c := {| key := api_key c; disabled_at := Some t |} ]> (keys (conn c))
     else keys (conn c)) ->
  key_id c1 = key_id c /\
  (3 <= _auth_failures c + 1 -> marked_disabled c1) /\
  (_auth_failures c + 1 < 3 ->
   keys (conn c1) = keys (conn c) /\ is_key_disabled (conn c1) (key_id c1) = false).
Proof.
  intros Hd K1 K2 K4.
  assert (Hid : key_id c1 = key_id c) by (unfold key_id; rewrite K2; reflexivity).
  split; [exact Hid|]. split.
  - intros H3. exists t. rewrite Hid, K1, K4.
    replace (3 <=? _auth_failures c + 1) with true by lia.
    apply lookup_insert_eq.
  - intros H3. replace (3 <=? _auth_failures c + 1) with false in K4 by lia.
    split; [exact K4|]. unfold is_key_disabled in *. rewrite Hid, K4. exact Hd.
Qed.

Lemma disabled_calls c later :
  api_key c <> "" ->
  is_key_disabled (conn c) (key_id c) = true ->
  run_calls json_loads quote c later =
  Some (map (fun _ => Raise auth_disabled_error) later, c).
Proof.
  intros Hk Hd. induction later as [|k later IH]; [reflexivity|].
  simpl. rewrite request_disabled by assumption. rewrite IH. reflexivity.
Qed.

(** C1: on an executor whose credential is configured and not disabled,
    three calls that each receive a 401 or a 403, after retried attempts or
    none, leave the store with the identifier of the credential, the
    credential and a timestamp, and every later call raises the
    auth-disabled error and returns the client as it was, journal included:
    no permit is acquired and no exchange is made.  When no auth failure had
    been counted before, each of the three calls is answered with its
    status error after the exchanges of its attempts, the counter goes 1, 2,
    3, the keys are untouched and the credential is still enabled after the
    first and after the second, and the third writes the row. *)
Theorem three_strikes_disable c k1 k2 k3 n1 n2 n3 a1 a2 a3 :
  api_key c <> "" ->
  is_key_disabled (conn c) (key_id c) = false ->
  0 <= _auth_failures c ->
  rejected_at k1 n1 a1 -> rejected_at k2 n2 a2 -> rejected_at k3 n3 a3 ->
  exists r1 r2 r3 c1 c2 c3,
    perform json_loads quote c k1 = Some (r1, c1) /\
    perform json_loads quote c1 k2 = Some (r2, c2) /\
    perform json_loads quote c2 k3 = Some (r3, c3) /\
    run_calls json_loads quote c [k1; k2; k3] = Some ([r1; r2; r3], c3) /\
    api_key c3 = api_key c /\ key_id c3 = key_id c /\
    marked_disabled c3 /\
    is_key_disabled (conn c3) (key_id c3) = true /\
    (forall later,
       run_calls json_loads quote c3 later =
       Some (map (fun _ => Raise auth_disabled_error) later, c3)) /\
    (_auth_failures c = 0 ->
     (exists s1 s2 s3,
        (s1 = 401 \/ s1 = 403) /\ (s2 = 401 \/ s2 = 403) /\ (s3 = 401 \/ s3 = 403) /\
        r1 = Raise (HTTPStatusError s1) /\
        r2 = Raise (HTTPStatusError s2) /\
        r3 = Raise (HTTPStatusError s3)) /\
     exchanges c1 = (exchanges c + n1 + 1)%nat /\
     exchanges c2 = (exchanges c1 + n2 + 1)%nat /\
     exchanges c3 = (exchanges c2 + n3 + 1)%nat /\
     _auth_failures c1 = 1 /\ keys (conn c1) = keys (conn c) /\
     is_key_disabled (conn c1) (key_id c1) = false /\
     _auth_failures c2 = 2 /\ keys (conn c2) = keys (conn c) /\
     is_key_disabled (conn c2) (key_id c2) = false /\
     _auth_failures c3 = 3 /\
     keys (conn c3) =
       <[ key_id c := {| key := api_key c; disabled_at := Some (disable_time a3) |} ]>
         (keys (conn c))).
Proof.
  intros Hk Hd Hn R1 R2 R3.
  assert (Hrun : forall x r1 x1 r2 x2 r3 x3,
             perform json_loads quote x k1 = Some (r1, x1) ->
             perform json_loads quote x1 k2 = Some (r2, x2) ->
             perform json_loads quote x2 k3 = Some (r3, x3) ->
             run_calls json_loads quote x [k1; k2; k3] = Some ([r1; r2; r3], x3)).
  { unfold perform. intros x r1 x1 r2 x2 r3 x3 E1 E2 E3.
    simpl. rewrite E1, E2, E3. reflexivity. }
  assert (Hblocked : forall x k, api_key x = api_key c -> marked_disabled x ->
             perform json_loads quote x k = Some (Raise auth_disabled_error, x)).
  { intros x k Hx Hm. unfold perform. apply request_disabled;
      [congruence | apply marked_is_disabled, Hm]. }
  assert (Hlatch : forall x, api_key x = api_key c -> key_id x = key_id c ->
             marked_disabled x ->
             api_key x = api_key c /\ key_id x = key_id c /\ marked_disabled x /\
             is_key_disabled (conn x) (key_id x) = true /\
             forall later,
               run_calls json_loads quote x later =
               Some (map (fun _ => Raise auth_disabled_error) later, x)).
  { intros x Hx Hid Hm. repeat split; auto using marked_is_disabled.
    intros later. apply disabled_calls; [congruence | apply marked_is_disabled, Hm]. }
  (* the first call *)
  destruct (rejected_call c k1 n1 a1 Hk Hd R1)
    as (s1 & c1 & Hs1 & E1 & A1 & U1 & N1 & K1 & X1).
  destruct (strike_keys c c1 _ Hd A1 U1 K1) as (I1 & M1 & D1).
  destruct (Z_lt_le_dec (_auth_failures c + 1) 3) as [L1|L1].
  2:{ specialize (M1 L1).
      exists (Raise (HTTPStatusError s1)), (Raise auth_disabled_error),
             (Raise auth_disabled_error), c1, c1, c1.
      pose proof (Hblocked c1 k2 A1 M1) as E2.
      pose proof (Hblocked c1 k3 A1 M1) as E3.
      split; [exact E1|]. split; [exact E2|]. split; [exact E3|].
      split; [apply (Hrun _ _ _ _ _ _ _ E1 E2 E3)|].
      destruct (Hlatch c1 A1 I1 M1) as (H1 & H2 & H3 & H4 & H5).
      repeat (split; [assumption|]). intros H0. lia. }
  destruct (D1 L1) as (K1' & D1').
  assert (Hk1 : api_key c1 <> "") by congruence.
  (* the second call *)
  destruct (rejected_call c1 k2 n2 a2 Hk1 D1' R2)
    as (s2 & c2 & Hs2 & E2 & A2 & U2 & N2 & K2 & X2).
  destruct (strike_keys c1 c2 _ D1' A2 U2 K2) as (I2 & M2 & D2).
  destruct (Z_lt_le_dec (_auth_failures c1 + 1) 3) as [L2|L2].
  2:{ specialize (M2 L2).
      assert (A2' : api_key c2 = api_key c) by congruence.
      exists (Raise (HTTPStatusError s1)), (Raise (HTTPStatusError s2)),
             (Raise auth_disabled_error), c1, c2, c2.
      pose proof (Hblocked c2 k3 A2' M2) as E3.
      split; [exact E1|]. split; [exact E2|]. split; [exact E3|].
      split; [apply (Hrun _ _ _ _ _ _ _ E1 E2 E3)|].
      destruct (Hlatch c2 A2' ltac:(congruence) M2) as (H1 & H2 & H3 & H4 & H5).
      repeat (split; [assumption|]). intros H0. lia. }
  destruct (D2 L2) as (K2' & D2').
  assert (Hk2 : api_key c2 <> "") by congruence.
  (* the third call *)
  destruct (rejected_call c2 k3 n3 a3 Hk2 D2' R3)
    as (s3 & c3 & Hs3 & E3 & A3 & U3 & N3 & K3 & X3).
  destruct (strike_keys c2 c3 _ D2' A3 U3 K3) as (I3 & M3 & _).
  assert (L3 : 3 <= _auth_failures c2 + 1) by lia.
  specialize (M3 L3).
  assert (A3' : api_key c3 = api_key c) by congruence.
  assert (I3' : key_id c3 = key_id c) by congruence.
  exists (Raise (HTTPStatusError s1)), (Raise (HTTPStatusError s2)),
         (Raise (HTTPStatusError s3)), c1, c2, c3.
  split; [exact E1|]. split; [exact E2|]. split; [exact E3|].
  split; [apply (Hrun _ _ _ _ _ _ _ E1 E2 E3)|].
  destruct (Hlatch c3 A3' I3' M3) as (H1 & H2 & H3 & H4 & H5).
  repeat (split; [assumption|]). intros H0.
  split; [exists s1, s2, s3; auto 10|].
  replace (3 <=? _auth_failures c2 + 1) with true in K3 by lia.
  rewrite I2, I1, A2, A1, K2', K1' in K3.
  repeat split; try assumption; try lia; congruence.
Qed.

(** *** Auth errors in the payload *)



(** *** The counter is never reset *)




(** *** The audit trail *)

(** C6, as the code has it: when a call returns or raises, the audit table
    has gained one row for each attempt that received a response and one
    row, of status -1, for a network failure that was the last attempt of
    the call; network failures before the last attempt have no row. *)
Theorem audit_per_attempt c section id_part selections extra_params script r c' :
  _request c section id_part selections extra_params script = Some (r, c') ->
  exists made rest,
    script = made ++ rest /\
    exchanges c' = (exchanges c + length made)%nat /\
    actions (conn c') =
      actions (conn c) ++
      expected_audit json_loads quote (build_url section id_part)
                     (build_params c selections extra_params) made.
Proof.
  unfold Api._request. intros H.
  destruct (String.eqb (api_key c) "").
  { injection H as _ <-. exists [], script. simpl. rewrite app_nil_r. auto. }
  destruct (is_key_disabled (conn c) (key_id c)).
  { injection H as _ <-. exists [], script. simpl. rewrite app_nil_r. auto. }
  apply retry_loop_made in H as (made & rest & E & _ & _ & _ & E1 & _ & _ & E4).
  exists made, rest. auto.
Qed.

End ExecutorFacts.

(** ** Redaction *)
Section Redaction.

Lemma str_app_cons (x : ascii) (a b : string) : String x a +:+ b = String x (a +:+ b).
Proof. reflexivity. Qed.

Lemma str_app_nil (b : string) : "" +:+ b = b.
Proof. reflexivity. Qed.

Lemma str_app_assoc (a b c : string) : a +:+ b +:+ c = (a +:+ b) +:+ c.
Proof.
  induction a as [|x a IH]; [reflexivity|].
  rewrite !str_app_cons. f_equal. exact IH.
Qed.

Lemma str_length_app (a b : string) :
  (String.length b <= String.length (a +:+ b))%nat.
Proof.
  induction a as [|x a IH]; [rewrite str_app_nil; lia|].
  rewrite str_app_cons. simpl. lia.
Qed.

Lemma prefix_nil (s : string) : String.prefix "" s = true.
Proof. destruct s; reflexivity. Qed.

Lemma prefix_app (p x : string) : String.prefix p (p +:+ x) = true.
Proof.
  induction p as [|a p IH]; [apply prefix_nil|].
  rewrite str_app_cons. simpl.
  destruct (ascii_dec a a); [exact IH | contradiction].
Qed.

(** Whether [p] starts a text depends on the first [length p] characters. *)
Lemma prefix_ext (p : string) : forall s x,
  (String.length p <= String.length s)%nat ->
  String.prefix p (s +:+ x) = String.prefix p s.
Proof.
  induction p as [|a p IH]; intros s x Hlen; [rewrite !prefix_nil; reflexivity|].
  destruct s as [|b s]; [simpl in Hlen; lia|].
  rewrite str_app_cons. simpl in *.
  destruct (ascii_dec a b); [apply IH; lia | reflexivity].
Qed.

Lemma contains_prefix (p s : string) : String.prefix p s = true -> contains p s = true.
Proof. intros H. destruct s; cbn [contains]; rewrite H; reflexivity. Qed.

Lemma before_prefix (p s : string) : String.prefix p s = true -> before p s = "".
Proof. intros H. destruct s; cbn [before]; rewrite H; reflexivity. Qed.

Lemma contains_app (p a x : string) : contains p (a +:+ p +:+ x) = true.
Proof.
  induction a as [|c a IH].
  - rewrite str_app_nil. apply contains_prefix, prefix_app.
  - rewrite str_app_cons. cbn [contains]. rewrite IH. apply orb_true_r.
Qed.

(** What precedes the first [p] of a text does not depend on what follows
    an occurrence of [p]. *)
Lemma before_app (p a x : string) : before p (a +:+ p +:+ x) = before p (a +:+ p).
Proof.
  induction a as [|c a IH].
  - rewrite !str_app_nil.
    rewrite (before_prefix p (p +:+ x)) by apply prefix_app.
    rewrite (before_prefix p p); [reflexivity|].
    rewrite <- (prefix_ext p p "") by lia. apply prefix_app.
  - rewrite !str_app_cons. cbn [before]. rewrite IH.
    replace (String.prefix p (String c (a +:+ p +:+ x)))
      with (String.prefix p (String c (a +:+ p))); [reflexivity|].
    symmetry. rewrite str_app_assoc.
    change (String c ((a +:+ p) +:+ x)) with (String c (a +:+ p) +:+ x).
    apply (prefix_ext p (String c (a +:+ p)) x).
    simpl. pose proof (str_length_app a p). lia.
Qed.

(** A url that carries the credential is cut at the first [key=]. *)
Lemma redact_keyed (u x : string) :
  _redact_query (u +:+ "?key=" +:+ x) = before "key=" (u +:+ "?key=") +:+ "key=REDACTED".
Proof.
  unfold _redact_query.
  change (u +:+ "?key=" +:+ x) with (u +:+ "?" +:+ "key=" +:+ x).
  change (u +:+ "?key=") with (u +:+ "?" +:+ "key=").
  rewrite !(str_app_assoc u "?").
  rewrite contains_app, before_app. reflexivity.
Qed.

Lemma dict_update_head e : forall k v rest,
  exists v' rest', dict_update ((k, v) :: rest) e = (k, v') :: rest'.
Proof.
  unfold dict_update.
  induction e as [|[k1 v1] e IH]; intros k v rest; simpl; [eauto|].
  destruct (String.eqb k1 k) eqn:E.
  - apply String.eqb_eq in E as ->. apply IH.
  - apply IH.
Qed.

(** The credential is the first parameter of every request. *)
Lemma build_params_head c selections extra_params :
  exists v rest, build_params c selections extra_params = ("key", v) :: rest.
Proof.
  unfold build_params.
  assert (exists v rest,
            match selections with
            | Some s => if String.eqb s "" then [("key", api_key c)]
                        else dict_set "selections" s [("key", api_key c)]
            | None => [("key", api_key c)]
            end = ("key", v) :: rest) as (v & rest & ->).
  { destruct selections as [s|]; [destruct (String.eqb s "")|]; simpl; eauto. }
  destruct extra_params as [e|]; [apply dict_update_head | eauto].
Qed.

Variable quote : string -> string.
Hypothesis quote_key : quote "key" = "key".

Lemma request_url_keyed url v rest :
  exists x, request_url quote url (("key", v) :: rest) = url +:+ "?key=" +:+ x.
Proof.
  unfold request_url. simpl map. rewrite quote_key.
  destruct (map _ rest) as [|y ys]; eexists; reflexivity.
Qed.

Lemma redact_request_url c url selections extra_params :
  _redact_query (request_url quote url (build_params c selections extra_params)) =
  before "key=" (url +:+ "?key=") +:+ "key=REDACTED".
Proof.
  destruct (build_params_head c selections extra_params) as (v & rest & ->).
  destruct (request_url_keyed url v rest) as (x & ->).
  apply redact_keyed.
Qed.

Variable json_loads : string -> option Json.

Lemma expected_lines_public c section id_part selections extra_params made :
  expected_lines quote (build_url section id_part)
                 (build_params c selections extra_params) made =
  map (public_line section id_part) (logged made).
Proof.
  induction made as [|a made IH]; [reflexivity|].
  cbn [expected_lines logged]. rewrite map_app, IH. f_equal.
  unfold public_line, logged_status, redacted_target, log_line.
  destruct (exchange a) as [exc|status text] eqn:E.
  - destruct made; simpl; rewrite ?E; reflexivity.
  - simpl. rewrite E, redact_request_url. reflexivity.
Qed.

Lemma expected_audit_public c section id_part selections extra_params made :
  map payload
      (expected_audit json_loads quote (build_url section id_part)
                      (build_params c selections extra_params) made) =
  map (public_payload section id_part) (logged made).
Proof.
  induction made as [|a made IH]; [reflexivity|].
  cbn [expected_audit logged]. rewrite !map_app, IH. f_equal.
  unfold public_payload, redacted_target, audit_row.
  destruct (exchange a) as [exc|status text] eqn:E.
  - destruct made; simpl; rewrite ?E; reflexivity.
  - simpl. rewrite E, redact_request_url. reflexivity.
Qed.

(** C8, as the code has it: every log line of a call and the [payload]
    column of every audit row it writes carry the target with everything
    from the first [key=] on replaced by [key=REDACTED]; both are fixed by
    the section, the id and the status, whatever the credential is.  The
    result stored next to it is not covered. *)
Theorem logged_urls_redacted c section id_part selections extra_params script r c' :
  Api._request json_loads quote c section id_part selections extra_params script =
  Some (r, c') ->
  exists made rest,
    script = made ++ rest /\
    log_lines c' = log_lines c ++ map (public_line section id_part) (logged made) /\
    map payload (actions (conn c')) =
      map payload (actions (conn c)) ++
      map (public_payload section id_part) (logged made).
Proof.
  unfold Api._request. intros H.
  destruct (String.eqb (api_key c) "").
  { injection H as _ <-. exists [], script. simpl. rewrite !app_nil_r. auto. }
  destruct (is_key_disabled (conn c) (key_id c)).
  { injection H as _ <-. exists [], script. simpl. rewrite !app_nil_r. auto. }
  apply retry_loop_made in H as (made & rest & E & _ & _ & _ & _ & _ & E3 & E4).
  exists made, rest. split; [exact E|]. split.
  - rewrite E3, expected_lines_public. reflexivity.
  - rewrite E4, map_app, expected_audit_public. reflexivity.
Qed.

End Redaction.

(** ** Worked examples *)


(** C6 fails as worded: a network failure followed by a 200 is two
    exchanges and one audit row. *)
Lemma failed_attempt_unaudited :
  exists r c',
    Api._request loads_example (fun s => s) client_example
                 "user" (Some "123") (Some "bars") None
                 [failure "timed out"; answer 200 body_ok] = Some (r, c') /\
    exchanges c' = 2%nat /\
    length (actions (conn c')) = 1%nat /\
    ~ one_record_per_attempt client_example c'.
Proof.
  eexists. eexists.
  split; [vm_compute; reflexivity|].
  split; [reflexivity|]. split; [reflexivity|].
  unfold one_record_per_attempt. vm_compute. discriminate.
Qed.

(** C2 at an input on which the code does not return the payload of the
    200: answered 429, 429 and a 200 whose [error] member is a text, the
    call makes its three exchanges and raises [AttributeError] at
    [data["error"].get]. *)
Lemma retry_then_malformed_payload_raises :
  exists c',
    Api._request loads_error_text (fun s => s) client_example
                 "user" (Some "123") (Some "bars") None
                 [answer 429 "slow down"; answer 429 "slow down";
                  answer 200 body_error_text] =
    Some (Raise AttributeError, c') /\
    exchanges c' = 3%nat /\
    loads_error_text body_error_text = Some (JObj [("error", JStr "bad")]).
Proof.
  eexists. split; [vm_compute; reflexivity|]. split; reflexivity.
Qed.

(** C8 fails as worded: the body of a response is stored in the audit row
    as it came, so a body that repeats the request repeats the credential. *)
Lemma echoed_credential_audited :
  exists r c',
    Api._request loads_example (fun s => s) client_example
                 "user" (Some "123") (Some "bars") None
                 [answer 400 "Bad request: /user/123?key=TEST&selections=bars"] =
    Some (r, c') /\
    ~ never_verbatim c'.
Proof.
  eexists. eexists. split; [vm_compute; reflexivity|].
  intros [_ H]. apply Forall_cons in H as [H _].
  vm_compute in H. discriminate.
Qed.

Lemma precheck_fails_fast_witness :
  Api._request loads_example (fun s => s)
               (Api.init "" (Some "123") {| keys := ∅; actions := [] |})
               "user" (Some "123") (Some "bars") None [answer 200 body_ok] =
  Some (Raise (TornAPIError "API key required"),
        Api.init "" (Some "123") {| keys := ∅; actions := [] |}) /\
  Api._request loads_example (fun s => s) client_disabled_example
               "user" (Some "123") (Some "bars") None [answer 200 body_ok] =
  Some (Raise auth_disabled_error, client_disabled_example).
Proof.
  split.
  - apply (proj1 (precheck_fails_fast loads_example (fun s => s) _ _ _ _ _ _)).
    reflexivity.
  - apply (proj1 (proj2 (precheck_fails_fast loads_example (fun s => s) _ _ _ _ _ _))).
    + discriminate.
    + vm_compute. reflexivity.
Defined.

Lemma retry_on_429_witness :
  (exists c',
     Api._request loads_example (fun s => s) client_example
                  "user" (Some "123") (Some "bars") None
                  [answer 429 "slow down"; answer 429 "slow down"; answer 200 body_ok] =
     Some (Return (JObj [("ok", JBool true)]), c') /\
     exchanges c' = 3%nat) /\
  (exists c',
     Api._request loads_example (fun s => s) client_example
                  "user" (Some "123") (Some "bars") None
                  [answer 429 "a"; answer 429 "b"; answer 429 "c"; answer 429 "d";
                   answer 429 "e"; answer 200 body_ok] =
     Some (Raise (HTTPStatusError 429), c') /\
     exchanges c' = 5%nat).
Proof.
  destruct (retry_on_429 loads_example (fun s => s) client_example
              "user" (Some "123") (Some "bars") None) as [H1 H2].
  - discriminate.
  - vm_compute. reflexivity.
  - split.
    + apply (H1 (answer 429 "slow down") (answer 429 "slow down")
                (answer 200 body_ok) [] body_ok); reflexivity.
    + apply (H2 (answer 429 "a") (answer 429 "b") (answer 429 "c")
                (answer 429 "d") (answer 429 "e") [answer 200 body_ok]).
      repeat constructor.
Defined.

Lemma three_strikes_disable_witness :
  exists r1 r2 r3 c1 c2 c3,
    run_calls loads_example (fun s => s) client_example
              [call_example [answer 429 "slow down"; answer 401 "denied"];
               call_example [answer 403 "denied"];
               call_example [answer 401 "denied"]] = Some ([r1; r2; r3], c3) /\
    perform loads_example (fun s => s) client_example
            (call_example [answer 429 "slow down"; answer 401 "denied"]) =
      Some (r1, c1) /\
    perform loads_example (fun s => s) c1 (call_example [answer 403 "denied"]) =
      Some (r2, c2) /\
    exchanges c1 = 2%nat /\ exchanges c2 = 3%nat /\ exchanges c3 = 4%nat /\
    is_key_disabled (conn c1) (key_id c1) = false /\
    is_key_disabled (conn c2) (key_id c2) = false /\
    is_key_disabled (conn c3) (key_id c3) = true /\
    run_calls loads_example (fun s => s) c3 [call_example [answer 200 body_ok]] =
    Some ([Raise auth_disabled_error], c3).
Proof.
  destruct (three_strikes_disable loads_example (fun s => s) client_example
              (call_example [answer 429 "slow down"; answer 401 "denied"])
              (call_example [answer 403 "denied"])
              (call_example [answer 401 "denied"])
              1 0 0 (answer 401 "denied") (answer 403 "denied") (answer 401 "denied"))
    as (r1 & r2 & r3 & c1 & c2 & c3 & E1 & E2 & _ & Er & _ & _ & _ & Hd & Hl & Hx).
  - discriminate.
  - vm_compute. reflexivity.
  - vm_compute. discriminate.
  - exists [answer 429 "slow down"], []. repeat split.
    + repeat constructor.
    + lia.
    + left. reflexivity.
  - exists [], []. repeat split; [constructor | lia | right; reflexivity].
  - exists [], []. repeat split; [constructor | lia | left; reflexivity].
  - destruct (Hx eq_refl) as (_ & X1 & X2 & X3 & _ & _ & D1 & _ & _ & D2 & _).
    exists r1, r2, r3, c1, c2, c3.
    split; [exact Er|]. split; [exact E1|]. split; [exact E2|].
    split; [exact X1|]. split; [rewrite X2, X1; reflexivity|].
    split; [rewrite X3, X2, X1; reflexivity|].
    split; [exact D1|]. split; [exact D2|]. split; [exact Hd|].
    apply (Hl [call_example [answer 200 body_ok]]).
Defined.



Lemma audit_per_attempt_witness :
  exists r c' made rest,
    Api._request loads_example (fun s => s) client_example
                 "user" (Some "123") (Some "bars") None
                 [failure "timed out"; answer 200 body_ok] = Some (r, c') /\
    [failure "timed out"; answer 200 body_ok] = made ++ rest /\
    exchanges c' = (exchanges client_example + length made)%nat /\
    actions (conn c') =
      actions (conn client_example) ++
      expected_audit loads_example (fun s => s) (build_url "user" (Some "123"))
                     (build_params client_example (Some "bars") None) made.
Proof.
  eexists. eexists.
  assert (E : Api._request loads_example (fun s => s) client_example
                "user" (Some "123") (Some "bars") None
                [failure "timed out"; answer 200 body_ok] = Some (_, _))
    by (vm_compute; reflexivity).
  destruct (audit_per_attempt _ _ _ _ _ _ _ _ _ _ E) as (made & rest & H).
  exists made, rest. split; [exact E | exact H].
Defined.

Lemma logged_urls_redacted_witness :
  exists r c' made rest,
    Api._request loads_example (fun s => s) client_example
                 "user" (Some "123") (Some "bars") None
                 [answer 429 "slow down"; answer 200 body_ok] = Some (r, c') /\
    [answer 429 "slow down"; answer 200 body_ok] = made ++ rest /\
    log_lines c' =
      log_lines client_example ++ map (public_line "user" (Some "123")) (logged made).
Proof.
  eexists. eexists.
  assert (E : Api._request loads_example (fun s => s) client_example
                "user" (Some "123") (Some "bars") None
                [answer 429 "slow down"; answer 200 body_ok] = Some (_, _))
    by (vm_compute; reflexivity).
  destruct (logged_urls_redacted (fun s => s) eq_refl loads_example
              _ _ _ _ _ _ _ _ E) as (made & rest & H1 & H2 & _).
  exists made, rest. split; [exact E|]. split; assumption.
Defined.

(** * Further properties of the code *)

(** ** [src/utils.py] *)
Section LimiterMore.

Local Open Scope Q_scope.

(** X1: for a base, a fraction and a draw in their ranges, the jittered
    value is never negative and stays within the fraction of the base. *)
Theorem small_jitter_bounds (base frac u : Q) :
  0 <= base -> 0 <= frac -> 0 <= u -> u <= 1 ->
  0 <= small_jitter base frac u /\
  base * (1 - frac) <= small_jitter base frac u /\
  small_jitter base frac u <= base * (1 + frac).
Proof.
  intros Hb Hf Hu0 Hu1. unfold small_jitter.
  set (d := base * frac).
  assert (Hd : 0 <= d) by (apply Qmult_le_0_compat; assumption).
  assert (Hdu0 : 0 <= d * u) by (apply Qmult_le_0_compat; assumption).
  assert (Hdu1 : d * u <= d).
  { rewrite <- (Qmult_1_r d) at 2. rewrite !(Qmult_comm d).
    apply Qmult_le_compat_r; assumption. }
  assert (Hx : base * (1 - frac) <= base + (- d + (d - - d) * u)).
  { unfold d in *. lra. }
  assert (Hy : base + (- d + (d - - d) * u) <= base * (1 + frac)).
  { unfold d in *. lra. }
  split; [apply Q.le_max_l|]. split.
  - eapply Qle_trans; [exact Hx | apply Q.le_max_r].
  - apply Q.max_lub; [| exact Hy]. unfold d in *. lra.
Qed.

Lemma small_jitter_bounds_witness :
  0 <= small_jitter 2 (15 # 100) (1 # 4) /\
  2 * (1 - (15 # 100)) <= small_jitter 2 (15 # 100) (1 # 4) /\
  small_jitter 2 (15 # 100) (1 # 4) <= 2 * (1 + (15 # 100)).
Proof.
  apply (small_jitter_bounds 2 (15 # 100) (1 # 4)); vm_compute; discriminate.
Defined.

(** X2: a refill at a reading that is not later than the one before adds
    no tokens and moves no timestamp. *)
Theorem refill_same_reading (l : TokenBucketLimiter) (t t' : Q) :
  t' <= t -> _refill (_refill l t) t' = _refill l t.
Proof.
  intros Ht. unfold _refill at 2 3.
  destruct (Qle_bool (t - _last_refill l) 0) eqn:E.
  - unfold _refill. apply Qle_bool_true in E.
    replace (Qle_bool (t' - _last_refill l) 0) with true; [reflexivity|].
    symmetry. apply Qle_bool_iff. lra.
  - unfold _refill. simpl.
    replace (Qle_bool (t' - t) 0) with true; [reflexivity|].
    symmetry. apply Qle_bool_iff. lra.
Qed.

Lemma refill_same_reading_witness :
  _refill (_refill (Utils.init 5 1 1 (15 # 100) 0) 3) 3 =
  _refill (Utils.init 5 1 1 (15 # 100) 0) 3.
Proof. apply refill_same_reading. vm_compute. discriminate. Defined.



Lemma refill_keeps_rate l now :
  refill_rate_per_sec (_refill l now) = refill_rate_per_sec l.
Proof. unfold _refill. destruct (Qle_bool _ _); reflexivity. Qed.

Lemma turn_keeps l tk :
  capacity (limiter_of (acquire_turn l tk)) = capacity l /\
  refill_rate_per_sec (limiter_of (acquire_turn l tk)) = refill_rate_per_sec l.
Proof.
  destruct (refill_keeps l (t_refill tk)) as (Hc & _).
  pose proof (refill_keeps_rate l (t_refill tk)) as Hr.
  destruct (acquire_turn_cases l tk) as [(-> & _) | (d & -> & _)]; simpl; auto.
Qed.

(** Every state of a limiter keeps the bounds of the bucket and a capacity
    of at least one. *)
Lemma states_sound ops : forall l,
  bucket_ok l -> (1 <= capacity l)%Z ->
  Forall (fun l' => bucket_ok l' /\ (1 <= capacity l')%Z) (states l ops).
Proof.
  induction ops as [|[now|tk] ops IH]; intros l H Hc; simpl.
  - constructor; [auto | constructor].
  - constructor; [auto|]. apply IH; [apply refill_ok, H|].
    destruct (refill_keeps l now) as (-> & _). exact Hc.
  - destruct (refill_keeps l (t_refill tk)) as (Hc1 & _).
    constructor; [auto|]. constructor; [split; [apply refill_ok, H | lia]|].
    apply IH; [apply turn_ok, H|].
    destruct (turn_keeps l tk) as (-> & _). exact Hc.
Qed.

(** X4: in any state a limiter reaches, a turn grants as soon as the time
    of one token, [1 / refill_rate_per_sec], has passed since the last
    refill and [min_spacing] has passed since the last grant. *)
Theorem grant_after_wait (cap : Z) (rate ms jf now : Q) (ops : list Op)
    (l : TokenBucketLimiter) (tk : Tick) (rest : list Tick) :
  l ∈ states (Utils.init cap rate ms jf now) ops ->
  _last_refill l + 1 / refill_rate_per_sec l <= t_refill tk ->
  _last_acquire l + min_spacing l <= t_now tk ->
  exists l',
    acquire_turn l tk = Granted l' /\
    acquire l (tk :: rest) = Some (l', rest) /\
    _last_acquire l' = t_grant tk.
Proof.
  intros Hin Hwait Hsp.
  assert (Hs : bucket_ok l /\ (1 <= capacity l)%Z).
  { pose proof (states_sound ops (Utils.init cap rate ms jf now)
                             (init_ok cap rate ms jf now)) as HF.
    rewrite Forall_forall in HF. apply HF; [simpl; lia | exact Hin]. }
  destruct Hs as ((H0 & Hc & Hr) & Hcap).
  assert (Hone : 1 <= (t_refill tk - _last_refill l) * refill_rate_per_sec l).
  { assert (E : 1 / refill_rate_per_sec l * refill_rate_per_sec l == 1).
    { field. intros Hz. rewrite Hz in Hr. apply (Qlt_irrefl 0), Hr. }
    rewrite <- E. apply Qmult_le_compat_r; [lra | apply Qlt_le_weak, Hr]. }
  assert (Hpos : 0 < t_refill tk - _last_refill l).
  { assert (0 < 1 / refill_rate_per_sec l).
    { apply Qlt_shift_div_l; [exact Hr | lra]. }
    lra. }
  assert (Htok : 1 <= tokens (_refill l (t_refill tk))).
  { unfold _refill.
    destruct (Qle_bool (t_refill tk - _last_refill l) 0) eqn:E.
    - apply Qle_bool_true in E. lra.
    - simpl. apply Q.min_glb; [| lra].
      change 1 with (inject_Z 1). rewrite <- Zle_Qle. exact Hcap. }
  destruct (acquire_turn_cases l tk) as [(E & _) | (d & _ & [Hlt | Hlt])];
    [| lra | lra].
  eexists. split; [exact E|]. split; [simpl; rewrite E; reflexivity | reflexivity].
Qed.

Lemma grant_after_wait_witness :
  exists l',
    acquire_turn (Utils.init 1 1 1 (15 # 100) 0) (mkTick 2 2 2 0) = Granted l' /\
    _last_acquire l' = 2.
Proof.
  destruct (grant_after_wait 1 1 1 (15 # 100) 0 [] (Utils.init 1 1 1 (15 # 100) 0)
                             (mkTick 2 2 2 0) [])
    as (l' & E & _ & Hg).
  - simpl. apply list_elem_of_singleton. reflexivity.
  - vm_compute. discriminate.
  - vm_compute. discriminate.
  - exists l'. split; assumption.
Defined.

(** A completed [acquire] pays one token out of what the bucket held and
    what the time since the last refill has brought. *)
Lemma acquire_pays ticks : forall l l' rest,
  bucket_ok l ->
  acquire l ticks = Some (l', rest) ->
  bucket_ok l' /\
  capacity l' = capacity l /\
  refill_rate_per_sec l' = refill_rate_per_sec l /\
  tokens l' + 1 - refill_rate_per_sec l * _last_refill l' <=
  tokens l - refill_rate_per_sec l * _last_refill l.
Proof.
  induction ticks as [|tk ticks IH]; intros l l' rest Hok Ha; [discriminate|].
  simpl in Ha.
  pose proof (refill_ok l (t_refill tk) Hok) as Hok1.
  pose proof (turn_ok l tk Hok) as Hok2.
  destruct (refill_keeps l (t_refill tk)) as (Hc & _).
  pose proof (refill_keeps_rate l (t_refill tk)) as Hr.
  assert (Hpot : tokens (_refill l (t_refill tk))
                 - refill_rate_per_sec l * _last_refill (_refill l (t_refill tk)) <=
                 tokens l - refill_rate_per_sec l * _last_refill l).
  { unfold _refill.
    destruct (Qle_bool (t_refill tk - _last_refill l) 0); [apply Qle_refl|].
    simpl.
    pose proof (Q.le_min_r (inject_Z (capacity l))
                  (tokens l + (t_refill tk - _last_refill l) * refill_rate_per_sec l)).
    lra. }
  destruct (acquire_turn_cases l tk) as [(E & _) | (d & E & _)]; rewrite E in *.
  - injection Ha as <- <-. simpl in *. repeat split; auto.
    + apply Hok2.
    + apply Hok2.
    + apply Hok2.
    + lra.
  - apply IH in Ha as (K1 & K2 & K3 & K4); [| exact Hok1].
    rewrite Hr in *. rewrite Hc in *. repeat split; auto; try apply K1. lra.
Qed.

Lemma acquire_many_pays n : forall l ticks gs l',
  bucket_ok l ->
  acquire_many n l ticks = Some (gs, l') ->
  bucket_ok l' /\
  capacity l' = capacity l /\
  refill_rate_per_sec l' = refill_rate_per_sec l /\
  length gs = n /\
  tokens l' + inject_Z (Z.of_nat n) - refill_rate_per_sec l * _last_refill l' <=
  tokens l - refill_rate_per_sec l * _last_refill l.
Proof.
  induction n as [|n IH]; intros l ticks gs l' Hok Ha; simpl in Ha.
  - injection Ha as <- <-. repeat split; auto; try apply Hok.
    change (inject_Z (Z.of_nat 0)) with 0. lra.
  - destruct (acquire l ticks) as [[l1 rest]|] eqn:E1; [|discriminate].
    destruct (acquire_many n l1 rest) as [[gs1 l2]|] eqn:E2; [|discriminate].
    injection Ha as <- <-.
    apply acquire_pays in E1 as (K1 & K2 & K3 & K4); [| exact Hok].
    apply IH in E2 as (J1 & J2 & J3 & J4 & J5); [| exact K1].
    rewrite K3 in J5.
    assert (Hs : inject_Z (Z.of_nat (S n)) == inject_Z (Z.of_nat n) + 1).
    { rewrite Nat2Z.inj_succ. unfold Z.succ. rewrite inject_Z_plus. reflexivity. }
    repeat split; auto; try apply J1; try congruence.
    + simpl. congruence.
    + rewrite Hs. lra.
Qed.

(** X5: the grants of a limiter are bounded by the bucket: [n] completed
    calls of [acquire] need [n <= capacity + rate * (T - now)], where [now]
    is the time of construction and [T] the time of the last refill. *)
Theorem grants_bounded (cap : Z) (rate ms jf now : Q) (n : nat)
    (ticks : list Tick) (grants : list Q) (l' : TokenBucketLimiter) :
  let l0 := Utils.init cap rate ms jf now in
  acquire_many n l0 ticks = Some (grants, l') ->
  length grants = n /\
  inject_Z (Z.of_nat n) <=
  inject_Z (capacity l0) + refill_rate_per_sec l0 * (_last_refill l' - now).
Proof.
  intros l0 Ha.
  apply acquire_many_pays in Ha as (K1 & _ & _ & K4 & K5); [| apply init_ok].
  split; [exact K4|].
  destruct K1 as (H0 & _).
  change (tokens l0) with (inject_Z (capacity l0)) in K5.
  change (_last_refill l0) with now in K5. lra.
Qed.

Lemma grants_bounded_witness :
  exists grants l',
    acquire_many 2 (Utils.init 2 1 1 (15 # 100) 0)
                 [mkTick 10 10 10 0; mkTick 11 11 11 0] = Some (grants, l') /\
    length grants = 2%nat.
Proof.
  eexists. eexists. split; [vm_compute; reflexivity|].
  eapply (grants_bounded 2 1 1 (15 # 100) 0 2 [mkTick 10 10 10 0; mkTick 11 11 11 0]).
  vm_compute. reflexivity.
Defined.

End LimiterMore.

(** ** [src/state/db.py] *)
Section Store.

(** X6: marking a key disabled shows for its identifier and for no other,
    leaves the audit rows alone, and a second marking of the identifier
    replaces the first: the later credential and timestamp stay. *)
Theorem mark_key_disabled_lookup (conn : Conn) (key_id api_key other : string)
    (now : Timestamp) (api_key' : string) (now' : Timestamp) :
  is_key_disabled (mark_key_disabled conn key_id api_key now) other =
    (if String.eqb other key_id then true else is_key_disabled conn other) /\
  actions (mark_key_disabled conn key_id api_key now) = actions conn /\
  mark_key_disabled (mark_key_disabled conn key_id api_key now) key_id api_key' now' =
    mark_key_disabled conn key_id api_key' now'.
Proof.
  split; [| split].
  - unfold is_key_disabled, mark_key_disabled; simpl.
    destruct (String.eqb other key_id) eqn:E.
    + apply String.eqb_eq in E as ->. rewrite lookup_insert_eq. reflexivity.
    + apply String.eqb_neq in E. rewrite lookup_insert_ne by congruence. reflexivity.
  - reflexivity.
  - unfold mark_key_disabled; simpl. rewrite insert_insert_eq. reflexivity.
Qed.

(** The row [latest] picks is a row of the list, and no row has a greater
    key. *)
Lemma latest_spec (rows : list (Timestamp * string)) :
  match latest rows with
  | None => rows = []
  | Some (k, v) => (k, v) ∈ rows /\ forall k' v', (k', v') ∈ rows -> (k' <= k)%N
  end.
Proof.
  induction rows as [|[k0 v0] rows IH]; [reflexivity|].
  simpl. destruct (latest rows) as [[k1 v1]|].
  - destruct IH as (Hin & Hmax). simpl.
    destruct (k1 <? k0)%N eqn:E.
    + apply N.ltb_lt in E. split; [apply list_elem_of_here|].
      intros k' v' Hk. apply elem_of_cons in Hk as [[= -> ->] | Hk]; [lia|].
      specialize (Hmax _ _ Hk). lia.
    + apply N.ltb_ge in E. split; [apply list_elem_of_further, Hin|].
      intros k' v' Hk. apply elem_of_cons in Hk as [[= -> ->] | Hk]; [lia|].
      apply (Hmax _ _ Hk).
  - subst rows. split; [apply list_elem_of_here|].
    intros k' v' Hk. apply elem_of_cons in Hk as [[= -> ->] | Hk]; [lia|].
    apply elem_of_nil in Hk. contradiction.
Qed.

Variable json_dumps : Json -> string.
Variable json_loads : string -> option Json.

(** X7: with no snapshot the last snapshot is [None]; a snapshot saved at
    a time that no stored snapshot is later than is the last snapshot, read
    back through [json.loads] of its [json.dumps]; and a snapshot saved in
    the second of another replaces it. *)
Theorem save_then_get_last_snapshot (tbl : Snapshots) (data data' : Json)
    (now : Timestamp) :
  (forall ts text, tbl !! ts = Some text -> (ts <= now)%N) ->
  get_last_snapshot json_loads ∅ = Some JNull /\
  get_last_snapshot json_loads (save_snapshot json_dumps tbl data now) =
    json_loads (json_dumps data) /\
  save_snapshot json_dumps (save_snapshot json_dumps tbl data' now) data now =
    save_snapshot json_dumps tbl data now.
Proof.
  intros Hold. split; [| split].
  - unfold get_last_snapshot. rewrite map_to_list_empty. reflexivity.
  - unfold get_last_snapshot, save_snapshot.
    pose proof (latest_spec (map_to_list (<[now := json_dumps data]> tbl))) as H.
    destruct (latest _) as [[k v]|].
    + destruct H as (Hin & Hmax).
      apply elem_of_map_to_list in Hin.
      assert (Hge : (now <= k)%N).
      { apply (Hmax now (json_dumps data)), elem_of_map_to_list, lookup_insert_eq. }
      destruct (decide (k = now)) as [->|Hne].
      * rewrite lookup_insert_eq in Hin. injection Hin as <-. reflexivity.
      * rewrite lookup_insert_ne in Hin by congruence.
        apply Hold in Hin. lia.
    + apply map_to_list_empty_iff in H.
      apply (f_equal (fun m => m !! now)) in H.
      rewrite lookup_insert_eq, lookup_empty in H. discriminate.
  - unfold save_snapshot. apply insert_insert_eq.
Qed.


End Store.

Lemma save_then_get_last_snapshot_witness :
  get_last_snapshot loads_example
    (save_snapshot (fun _ => body_ok) {[ 5%N := body_code2 ]}
                   (JObj [("ok", JBool true)]) 7%N) =
  Some (JObj [("ok", JBool true)]).
Proof.
  destruct (save_then_get_last_snapshot (fun _ => body_ok) loads_example
              {[ 5%N := body_code2 ]} (JObj [("ok", JBool true)]) JNull 7%N)
    as (_ & H & _).
  - intros ts text Hl. apply lookup_singleton_Some in Hl as [<- _]. lia.
  - exact H.
Defined.


(** ** [src/api.py] *)
Section RedactMore.

Lemma prefix_split (p : string) : forall s,
  String.prefix p s = true -> exists r, s = p +:+ r.
Proof.
  induction p as [|a p IH]; intros s H; [exists s; reflexivity|].
  destruct s as [|b s]; [discriminate|]. simpl in H.
  destruct (ascii_dec a b) as [->|]; [|discriminate].
  destruct (IH s H) as (r & ->). exists r. reflexivity.
Qed.

Lemma prefix_extend (p a r : string) :
  String.prefix p a = true -> String.prefix p (a +:+ r) = true.
Proof.
  intros H. destruct (prefix_split p a H) as (r0 & ->).
  rewrite <- str_app_assoc. apply prefix_app.
Qed.

Lemma prefix_of_empty (p : string) : p <> "" -> String.prefix p "" = false.
Proof. destruct p; [congruence | reflexivity]. Qed.

(** What precedes the first [p] is the start of the text. *)
Lemma before_is_prefix (p u : string) : exists r, u = before p u +:+ r.
Proof.
  induction u as [|c u IH]; cbn [before].
  - exists "". destruct (String.prefix p ""); reflexivity.
  - destruct (String.prefix p (String c u)).
    + exists (String c u). reflexivity.
    + destruct IH as (r & Hr). exists r. rewrite str_app_cons. f_equal. exact Hr.
Qed.

(** A text that holds [p] is what precedes the first [p], then [p], then
    the rest. *)
Lemma before_split (p u : string) :
  contains p u = true -> exists r, u = before p u +:+ p +:+ r.
Proof.
  induction u as [|c u IH]; cbn [before contains]; intros H.
  - rewrite orb_false_r in H. rewrite H. apply (prefix_split p "" H).
  - destruct (String.prefix p (String c u)) eqn:E.
    + apply (prefix_split p _ E).
    + simpl in H. destruct (IH H) as (r & Hr). exists r.
      rewrite str_app_cons. f_equal. exact Hr.
Qed.

(** What precedes the first [p] holds no [p]. *)
Lemma before_clean (p u : string) : p <> "" -> contains p (before p u) = false.
Proof.
  intros Hp. induction u as [|c u IH]; cbn [before].
  - destruct (String.prefix p ""); cbn [contains];
      rewrite (prefix_of_empty p Hp); reflexivity.
  - destruct (String.prefix p (String c u)) eqn:E.
    + cbn [contains]. rewrite (prefix_of_empty p Hp). reflexivity.
    + cbn [contains]. rewrite IH, orb_false_r.
      destruct (String.prefix p (String c (before p u))) eqn:E'; [|reflexivity].
      destruct (before_is_prefix p u) as (r & Hr).
      apply (prefix_extend _ _ r) in E'.
      rewrite str_app_cons, <- Hr in E'. congruence.
Qed.

(** X9: a url that holds [key=] is redacted to what precedes its first
    [key=], which holds no [key=], followed by the marker, so nothing
    after the first [key=] is left; a url without [key=] is left as it is;
    and redacting twice is redacting once. *)
Theorem redact_query_shape (url : string) :
  (if contains "key=" url
   then exists rest,
          url = before "key=" url +:+ "key=" +:+ rest /\
          _redact_query url = before "key=" url +:+ "key=REDACTED" /\
          contains "key=" (before "key=" url) = false
   else _redact_query url = url) /\
  _redact_query (_redact_query url) = _redact_query url.
Proof.
  unfold _redact_query at 1 2 4 5.
  destruct (contains "key=" url) eqn:E.
  - destruct (before_split "key=" url E) as (rest & Hu). split.
    + exists rest. split; [exact Hu|]. split; [reflexivity|].
      apply before_clean. discriminate.
    + set (b := before "key=" url) in *.
      assert (Hb : before "key=" (b +:+ "key=") = b).
      { rewrite <- (before_app "key=" b rest), <- Hu. reflexivity. }
      unfold _redact_query.
      change (b +:+ "key=REDACTED") with (b +:+ "key=" +:+ "REDACTED").
      rewrite contains_app, before_app, Hb. reflexivity.
  - split; [reflexivity|]. unfold _redact_query. rewrite E. reflexivity.
Qed.

Lemma substring_length (m : nat) : forall s,
  String.length (String.substring 0 m s) = Nat.min m (String.length s).
Proof.
  induction m as [|m IH]; intros s; destruct s as [|c s]; simpl; auto.
Qed.

Lemma substring_prefix (m : nat) : forall s,
  String.prefix (String.substring 0 m s) s = true.
Proof.
  induction m as [|m IH]; intros s; destruct s as [|c s]; simpl; auto.
  destruct (ascii_dec c c); [apply IH | contradiction].
Qed.

End RedactMore.

Section ExecutorMore.

Variable json_loads : string -> option Json.
Variable quote : string -> string.

Local Open Scope Z_scope.

Local Abbreviation _request := (Api._request json_loads quote).
Local Abbreviation retry_loop := (Api.retry_loop json_loads quote).
Local Abbreviation turn := (Api.turn json_loads quote).
Local Abbreviation _safe_json := (Api._safe_json json_loads).

(** X10: a body that is no JSON, under a status that is neither retried
    nor 401/403, is returned wrapped as [raw], cut to its first 500
    characters; it never counts as an auth failure and never touches the
    table of keys. *)
Theorem unparseable_body_returned c section id_part selections extra_params
    a rest status text :
  api_key c <> "" ->
  is_key_disabled (conn c) (key_id c) = false ->
  exchange a = Response status text ->
  is_transient status = false -> status <> 401 -> status <> 403 ->
  json_loads text = None ->
  exists raw c',
    _request c section id_part selections extra_params (a :: rest) =
    Some (Return (JObj [("raw", JStr raw)]), c') /\
    String.length raw = Nat.min 500 (String.length text) /\
    String.prefix raw text = true /\
    _auth_failures c' = _auth_failures c /\
    keys (conn c') = keys (conn c) /\
    exchanges c' = S (exchanges c).
Proof.
  intros Hk Hd Ha Ht H401 H403 Hj.
  assert (Hs : _safe_json text = JObj [("raw", JStr (String.substring 0 500 text))]).
  { unfold Api._safe_json. rewrite Hj. reflexivity. }
  rewrite request_ready by assumption.
  edestruct (loop_payload json_loads quote c) as (c' & E & _ & _ & K3 & K4 & K5 & _);
    [exact Ha | exact Ht | exact H401 | exact H403 | rewrite Hs; reflexivity |].
  rewrite Hs in *.
  exists (String.substring 0 500 text), c'.
  split; [exact E|]. split; [apply substring_length|].
  split; [apply substring_prefix|].
  change (auth_error (JObj [("raw", JStr (String.substring 0 500 text))]))
    with false in K3, K4.
  simpl in K3, K4. repeat split; auto. lia.
Qed.

(** X11: a payload whose [error] member is truthy and no dict makes the
    call raise [AttributeError]; the response has been logged by then, and
    no auth failure is counted. *)
Theorem malformed_error_raises c section id_part selections extra_params
    a rest status text :
  api_key c <> "" ->
  is_key_disabled (conn c) (key_id c) = false ->
  exchange a = Response status text ->
  is_transient status = false -> status <> 401 -> status <> 403 ->
  wire_shaped (_safe_json text) = false ->
  exists c',
    _request c section id_part selections extra_params (a :: rest) =
    Some (Raise AttributeError, c') /\
    _auth_failures c' = _auth_failures c /\
    keys (conn c') = keys (conn c) /\
    exchanges c' = S (exchanges c) /\
    length (actions (conn c')) = S (length (actions (conn c))).
Proof.
  intros Hk Hd Ha Ht H401 H403 Hw.
  rewrite request_ready by assumption.
  eexists. split.
  - simpl. unfold Api.turn. rewrite Ha, Ht. unfold Api.settle.
    replace ((status =? 401) || (status =? 403)) with false by lia.
    rewrite check_payload_spec, Hw. reflexivity.
  - unfold exchanges. simpl.
    rewrite !List.filter_app, !List.length_app. simpl.
    repeat split; auto; lia.
Qed.

(** What the turn that ends a call does to the counter and to the keys:
    nothing, or one strike. *)
Lemma turn_done_strike c url params attempt a r c' :
  turn c url params attempt a = Done r c' ->
  (_auth_failures c' = _auth_failures c /\ keys (conn c') = keys (conn c)) \/
  (_auth_failures c' = _auth_failures c + 1 /\
   keys (conn c') =
     (if 3 <=? _auth_failures c + 1
      then <[ key_id c := {| key := api_key c; disabled_at := Some (disable_time a) |} ]>
             (keys (conn c))
      else keys (conn c))).
Proof.
  unfold Api.turn. intros H.
  destruct (exchange a) as [exc|status text].
  - destruct (max_attempts <=? attempt + 1); [|discriminate].
    injection H as <- <-. left. auto.
  - destruct (is_transient status).
    + destruct ((max_attempts <=? attempt + 1) && raise_for_status status);
        [|discriminate].
      injection H as <- <-. left. auto.
    + set (c0 := _log_api _ _ _ _ _) in H.
      assert (K : api_key c0 = api_key c /\ user_id c0 = user_id c /\
                  _auth_failures c0 = _auth_failures c /\
                  keys (conn c0) = keys (conn c)) by (simpl; auto).
      destruct K as (K1 & K2 & K3 & K4).
      assert (Hid : key_id c0 = key_id c) by (unfold key_id; rewrite K2; reflexivity).
      assert (Hstrike :
                _auth_failures (count_auth_failure c0 (disable_time a)) =
                  _auth_failures c + 1 /\
                keys (conn (count_auth_failure c0 (disable_time a))) =
                  (if 3 <=? _auth_failures c + 1
                   then <[ key_id c := {| key := api_key c;
                                          disabled_at := Some (disable_time a) |} ]>
                          (keys (conn c))
                   else keys (conn c))).
      { rewrite count_auth_failure_keys, Hid, K1, K3, K4.
        destruct (count_auth_failure_keeps c0 (disable_time a)) as (_ & _ & _ & _ & ->).
        rewrite K3. auto. }
      unfold Api.settle in H.
      destruct ((status =? 401) || (status =? 403)) eqn:E.
      * rewrite (raise_for_status_auth _ E) in H. injection H as <- <-.
        right. exact Hstrike.
      * rewrite check_payload_spec in H.
        destruct (wire_shaped _); [destruct (auth_error _)|];
          injection H as <- <-; [right; exact Hstrike | left; auto | left; auto].
Qed.

Lemma retry_loop_strike script : forall c url params attempt r c',
  retry_loop c url params attempt script = Some (r, c') ->
  exists t,
    (_auth_failures c' = _auth_failures c /\ keys (conn c') = keys (conn c)) \/
    (_auth_failures c' = _auth_failures c + 1 /\
     keys (conn c') =
       (if 3 <=? _auth_failures c + 1
        then <[ key_id c := {| key := api_key c; disabled_at := Some t |} ]>
               (keys (conn c))
        else keys (conn c))).
Proof.
  induction script as [|a script IH]; intros c url params attempt r c' H;
    [discriminate|].
  simpl in H. destruct (Api.turn _ _ _ _ _ _ _) as [r0 c0|c0 attempt0] eqn:Et.
  - injection H as <- <-. exists (disable_time a).
    apply (turn_done_strike _ _ _ _ _ _ _ Et).
  - apply IH in H as (t & H). exists t.
    apply turn_again in Et as (_ & _ & A1 & A2 & A3 & A4 & _).
    unfold key_id in *. rewrite A1, A2, A3, A4 in H. exact H.
Qed.

(** X12: a call counts at most one auth failure and never lowers the
    counter; it leaves the table of keys as it was unless the counter has
    reached three, and then it writes the row of its own identifier only. *)
Theorem one_strike_per_call c section id_part selections extra_params script r c' :
  _request c section id_part selections extra_params script = Some (r, c') ->
  _auth_failures c <= _auth_failures c' <= _auth_failures c + 1 /\
  (_auth_failures c' < 3 -> keys (conn c') = keys (conn c)) /\
  (forall other, other <> key_id c ->
     keys (conn c') !! other = keys (conn c) !! other).
Proof.
  unfold Api._request. intros H.
  destruct (String.eqb (api_key c) "").
  { injection H as _ <-. repeat split; auto; lia. }
  destruct (is_key_disabled (conn c) (key_id c)).
  { injection H as _ <-. repeat split; auto; lia. }
  apply retry_loop_strike in H as (t & [(H1 & H2) | (H1 & H2)]).
  - rewrite H1, H2. repeat split; auto; lia.
  - rewrite H1, H2. split; [lia|]. split.
    + intros Hlt. replace (3 <=? _auth_failures c + 1) with false by lia. reflexivity.
    + intros other Hne. destruct (3 <=? _auth_failures c + 1); [|reflexivity].
      apply lookup_insert_ne. congruence.
Qed.

(** The exchanges of a loop that starts at [attempt] failures. *)
Lemma retry_loop_exchanges script : forall c url params attempt r c',
  attempt < max_attempts ->
  retry_loop c url params attempt script = Some (r, c') ->
  Z.of_nat (exchanges c') <= Z.of_nat (exchanges c) + (max_attempts - attempt) /\
  (permits c' + exchanges c = permits c + exchanges c')%nat.
Proof.
  induction script as [|a script IH]; intros c url params attempt r c' Hlt H;
    [discriminate|].
  simpl in H. destruct (Api.turn _ _ _ _ _ _ _) as [r0 c0|c0 attempt0] eqn:Et.
  - injection H as <- <-.
    apply turn_done in Et as (_ & _ & K3 & _).
    apply exchanges_app in K3 as (E1 & E2 & _).
    assert (forall ls, length (List.filter is_get (map LogInfo ls)) = 0%nat /\
                       length (List.filter is_acquire (map LogInfo ls)) = 0%nat) as Hz.
    { intros ls. induction ls; simpl; auto. }
    destruct (Hz (expected_lines quote url params [a])) as (Z1 & Z2).
    rewrite E1, E2, !List.filter_app, !List.length_app, Z1, Z2. simpl.
    split; lia.
  - apply turn_again in Et as (-> & Hlt' & _ & _ & _ & _ & Hj).
    apply IH in H as (H1 & H2); [| exact Hlt'].
    assert (exchanges c0 = S (exchanges c) /\ permits c0 = S (permits c)) as (E1 & E2).
    { destruct (exchange a).
      - destruct Hj as (Hj & _). apply exchanges_app in Hj as (-> & -> & _).
        simpl. split; lia.
      - destruct Hj as (_ & Hj & _). apply exchanges_app in Hj as (-> & -> & _).
        simpl. split; lia. }
    rewrite E1, E2 in *. split; lia.
Qed.

(** X13: whatever the network answers, a call makes at most five
    exchanges, and it acquires exactly one permit for each exchange. *)
Theorem at_most_five_exchanges c section id_part selections extra_params script r c' :
  _request c section id_part selections extra_params script = Some (r, c') ->
  (exchanges c' <= exchanges c + 5)%nat /\
  (permits c' + exchanges c = permits c + exchanges c')%nat.
Proof.
  unfold Api._request. intros H.
  destruct (String.eqb (api_key c) "").
  { injection H as _ <-. split; lia. }
  destruct (is_key_disabled (conn c) (key_id c)).
  { injection H as _ <-. split; lia. }
  apply retry_loop_exchanges in H as (H1 & H2); [| reflexivity].
  unfold max_attempts in H1. split; lia.
Qed.

(** A retryable attempt: the loop raises its error if it is the fifth
    failure and goes on otherwise, after one exchange either way. *)
Lemma turn_retryable c url params attempt a :
  retryable a = true ->
  exists c1,
    turn c url params attempt a =
      (if max_attempts <=? attempt + 1
       then Done (Raise (error_of a)) c1
       else Again (emit c1 (AsyncSleep (backoff (attempt + 1) (backoff_draw a))))
                  (attempt + 1)) /\
    exchanges c1 = S (exchanges c) /\
    _auth_failures c1 = _auth_failures c /\ keys (conn c1) = keys (conn c).
Proof.
  unfold retryable, error_of, Api.turn. intros Hr.
  destruct (exchange a) as [exc|status text].
  - destruct (max_attempts <=? attempt + 1); eexists; (split; [reflexivity|]);
      unfold exchanges; simpl; rewrite !List.filter_app, !List.length_app; simpl;
      repeat split; auto; lia.
  - rewrite Hr, (raise_for_status_transient _ Hr), andb_true_r.
    destruct (max_attempts <=? attempt + 1); eexists; (split; [reflexivity|]);
      unfold exchanges; simpl; rewrite !List.filter_app, !List.length_app; simpl;
      repeat split; auto; lia.
Qed.

Lemma retry_loop_exhausts made : forall c url params attempt rest a,
  Forall (fun b => retryable b = true) made ->
  last made = Some a ->
  Z.of_nat (length made) = max_attempts - attempt ->
  exists c',
    retry_loop c url params attempt (made ++ rest) = Some (Raise (error_of a), c') /\
    exchanges c' = (exchanges c + length made)%nat /\
    _auth_failures c' = _auth_failures c /\ keys (conn c') = keys (conn c).
Proof.
  induction made as [|b made IH]; intros c url params attempt rest a Hall Hlast Hlen;
    [discriminate|].
  apply Forall_cons in Hall as [Hb Hall].
  destruct (turn_retryable c url params attempt b Hb) as (c1 & Et & E1 & E2 & E3).
  simpl. rewrite Et.
  destruct made as [|b' made].
  - simpl in Hlast. cbn [length] in Hlen. injection Hlast as ->.
    assert (Hmax : (max_attempts <=? attempt + 1) = true) by lia.
    rewrite Hmax.
    exists c1. repeat split; auto. simpl length. lia.
  - cbn [length] in Hlen.
    assert (Hmax : (max_attempts <=? attempt + 1) = false) by lia.
    rewrite Hmax.
    destruct (IH (emit c1 (AsyncSleep (backoff (attempt + 1) (backoff_draw b))))
                 url params (attempt + 1) rest a Hall)
      as (c' & E & K1 & K2 & K3).
    + rewrite last_cons_cons in Hlast. exact Hlast.
    + simpl length. lia.
    + exists c'. split; [exact E|].
      assert (exchanges (emit c1 (AsyncSleep (backoff (attempt + 1) (backoff_draw b))))
              = exchanges c1) as Hx.
      { unfold exchanges. simpl. rewrite List.filter_app, List.length_app. simpl. lia. }
      rewrite Hx in K1. simpl in K2, K3. cbn [length] in *.
      repeat split; try congruence. lia.
Qed.

(** X14: network failures and transient statuses share one budget: when
    the first five attempts of a call are of those kinds, in any mix, the
    call raises the error of the fifth after exactly five exchanges, and no
    auth failure has been counted. *)
Theorem five_failures_exhaust c section id_part selections extra_params
    a1 a2 a3 a4 a5 rest :
  api_key c <> "" ->
  is_key_disabled (conn c) (key_id c) = false ->
  Forall (fun b => retryable b = true) [a1; a2; a3; a4; a5] ->
  exists c',
    _request c section id_part selections extra_params
             (a1 :: a2 :: a3 :: a4 :: a5 :: rest) =
    Some (Raise (error_of a5), c') /\
    exchanges c' = (exchanges c + 5)%nat /\
    _auth_failures c' = _auth_failures c /\ keys (conn c') = keys (conn c).
Proof.
  intros Hk Hd Hall. rewrite request_ready by assumption.
  apply (retry_loop_exhausts [a1; a2; a3; a4; a5] c _ _ 0 rest a5 Hall);
    reflexivity.
Qed.

(** *** Backoff *)

Lemma sleep_sum_app (l1 l2 : list Event) :
  (fold_right (fun e acc => match e with AsyncSleep d => d + acc | _ => acc end) 0
              (l1 ++ l2) ==
   fold_right (fun e acc => match e with AsyncSleep d => d + acc | _ => acc end) 0 l1 +
   fold_right (fun e acc => match e with AsyncSleep d => d + acc | _ => acc end) 0 l2)%Q.
Proof.
  induction l1 as [|e l1 IH]; simpl; [lra|].
  destruct e; try exact IH. rewrite IH. lra.
Qed.

Lemma sleep_sum_lines (ls : list string) :
  fold_right (fun e acc => match e with AsyncSleep d => (d + acc)%Q | _ => acc end) 0%Q
             (map LogInfo ls) = 0%Q.
Proof. induction ls; simpl; auto. Qed.

Lemma backoff_bound (k : Z) (u : Q) :
  1 <= k -> (0 <= u)%Q -> (u <= 1)%Q ->
  (backoff k u <= (115 # 100) * inject_Z (2 ^ (k - 1)))%Q.
Proof.
  intros Hk Hu0 Hu1. unfold backoff, base_backoff, default_jitter_fraction.
  assert (H0 : (0 <= 1 * inject_Z (2 ^ (k - 1)))%Q).
  { rewrite Qmult_1_l. change 0%Q with (inject_Z 0). rewrite <- Zle_Qle.
    apply Z.pow_nonneg. lia. }
  destruct (small_jitter_bounds (1 * inject_Z (2 ^ (k - 1))) (15 # 100) u H0)
    as (_ & _ & H); try assumption; [discriminate|].
  eapply Qle_trans; [exact H|]. lra.
Qed.

Lemma retry_loop_slept script : forall c url params attempt r c',
  0 <= attempt < max_attempts ->
  Forall (fun a => (0 <= backoff_draw a)%Q /\ (backoff_draw a <= 1)%Q) script ->
  retry_loop c url params attempt script = Some (r, c') ->
  (slept c' <= slept c + (115 # 100) * (16 - inject_Z (2 ^ attempt)))%Q.
Proof.
  induction script as [|a script IH]; intros c url params attempt r c' Hat Hall H;
    [discriminate|].
  apply Forall_cons in Hall as [(Hu0 & Hu1) Hall].
  assert (Hpow : (inject_Z (2 ^ attempt) <= 16)%Q).
  { change 16%Q with (inject_Z (2 ^ 4)). rewrite <- Zle_Qle.
    apply Z.pow_le_mono_r; unfold max_attempts in Hat; lia. }
  simpl in H. destruct (Api.turn _ _ _ _ _ _ _) as [r0 c0|c0 attempt0] eqn:Et.
  - injection H as <- <-.
    apply turn_done in Et as (_ & _ & K3 & _).
    unfold slept. rewrite K3, !sleep_sum_app, sleep_sum_lines. simpl. lra.
  - apply turn_again in Et as (-> & Hlt & _ & _ & _ & _ & Hj).
    apply IH in H; [| lia | exact Hall].
    assert (Hs : (slept c0 == slept c + backoff (attempt + 1) (backoff_draw a))%Q).
    { unfold slept. destruct (exchange a).
      - destruct Hj as (-> & _). rewrite sleep_sum_app. simpl. lra.
      - destruct Hj as (_ & -> & _). rewrite sleep_sum_app. simpl. lra. }
    pose proof (backoff_bound (attempt + 1) (backoff_draw a)) as Hb.
    replace (attempt + 1 - 1) with attempt in Hb by lia.
    specialize (Hb ltac:(lia) Hu0 Hu1).
    assert (Hp : (inject_Z (2 ^ (attempt + 1)) == 2 * inject_Z (2 ^ attempt))%Q).
    { rewrite Z.pow_add_r by lia. rewrite inject_Z_mult.
      change (inject_Z (2 ^ 1)) with 2%Q. lra. }
    rewrite Hs, Hp in H. lra.
Qed.

(** X15: with every draw of the backoff in the range of
    [random.random()], the backoff sleeps of one call add up to at most
    17.25 seconds, which is 1 + 2 + 4 + 8 with 15% of jitter. *)
Theorem backoff_total_bounded c section id_part selections extra_params script r c' :
  Forall (fun a => (0 <= backoff_draw a)%Q /\ (backoff_draw a <= 1)%Q) script ->
  _request c section id_part selections extra_params script = Some (r, c') ->
  (slept c' <= slept c + (69 # 4))%Q.
Proof.
  unfold Api._request. intros Hall H.
  destruct (String.eqb (api_key c) "").
  { injection H as _ <-. lra. }
  destruct (is_key_disabled (conn c) (key_id c)).
  { injection H as _ <-. lra. }
  apply retry_loop_slept in H; [| unfold max_attempts; lia | exact Hall].
  change (inject_Z (2 ^ 0)) with 1%Q in H. lra.
Qed.

(** *** The endpoints and the latch *)

(** X16: on a credential that the store shows disabled every endpoint
    fails and leaves the client as it was, with the auth-disabled error
    when the client has a user id; [do_train] is not behind the latch: it
    logs its plan whatever the store shows, and makes no exchange. *)
Theorem disabled_blocks_endpoints c (e : Endpoint) script slot points dry_run now :
  api_key c <> "" ->
  is_key_disabled (conn c) (key_id c) = true ->
  (exists msg,
     call_endpoint json_loads quote c e script = Some (Raise (TornAPIError msg), c)) /\
  (forall u, user_id c = Some u -> u <> "" ->
   call_endpoint json_loads quote c e script = Some (Raise auth_disabled_error, c)) /\
  journal (snd (do_train c slot points dry_run now)) = journal c /\
  keys (conn (snd (do_train c slot points dry_run now))) = keys (conn c) /\
  exists row,
    actions (conn (snd (do_train c slot points dry_run now))) =
      actions (conn c) ++ [row] /\
    action_type row = "plan_train" /\
    payload row = Some (fst (do_train c slot points dry_run now)).
Proof.
  intros Hk Hd.
  assert (Hr : forall section id_part selections,
             Api._request json_loads quote c section id_part selections None script =
             Some (Raise auth_disabled_error, c)).
  { intros. apply request_disabled; assumption. }
  split; [| split; [| split; [| split]]].
  - unfold call_endpoint.
    destruct e; try destruct (String.eqb _ ""); rewrite ?Hr; eauto.
  - intros u Hu Hne. unfold call_endpoint. rewrite Hu.
    rewrite (eqb_empty_false u Hne).
    destruct e; rewrite ?Hr; reflexivity.
  - reflexivity.
  - reflexivity.
  - eexists. split; [reflexivity|]. split; reflexivity.
Qed.

End ExecutorMore.

(** ** [src/run_trainer.py] *)

(** X17: the clamp of [_build_client] changes nothing: the limiter of
    the client is the one [TornClient.__init__] makes of the unclamped
    argument. *)
Theorem build_client_clamp_redundant (max_requests_per_min : Z)
    (min_spacing_seconds now : Q) :
  RunTrainer._build_client_limiter max_requests_per_min min_spacing_seconds now =
  init_limiter max_requests_per_min min_spacing_seconds now.
Proof.
  unfold RunTrainer._build_client_limiter, init_limiter.
  replace (Z.min 100 (Z.max 1 (Z.min 100 (Z.max 1 max_requests_per_min))))
    with (Z.min 100 (Z.max 1 max_requests_per_min)) by lia.
  reflexivity.
Qed.

(** ** [src/trainer.py] *)
Section TrainerFacts.

Import Trainer.

Local Open Scope Q_scope.

(** [list_min] picks an element, and none is smaller. *)
Lemma list_min_spec (qs : list Q) : forall q,
  list_min q qs ∈ q :: qs /\ forall x, x ∈ q :: qs -> list_min q qs <= x.
Proof.
  unfold list_min. induction qs as [|y qs IH]; intros q; simpl.
  - split; [apply list_elem_of_here|].
    intros x Hx. apply list_elem_of_singleton in Hx as ->. apply Qle_refl.
  - destruct (Qlt_le_dec y q) as [Hlt|Hle].
    + destruct (IH y) as (Hin & Hmin). split.
      * apply list_elem_of_further. exact Hin.
      * intros x Hx. apply elem_of_cons in Hx as [-> | Hx].
        -- apply Qle_trans with y; [apply Hmin, list_elem_of_here|].
           apply Qlt_le_weak, Hlt.
        -- apply Hmin, Hx.
    + destruct (IH q) as (Hin & Hmin). split.
      * apply elem_of_cons in Hin as [-> | Hin];
          [apply list_elem_of_here | do 2 apply list_elem_of_further; exact Hin].
      * intros x Hx. apply elem_of_cons in Hx as [-> | Hx];
          [apply Hmin, list_elem_of_here|].
        apply elem_of_cons in Hx as [-> | Hx].
        -- apply Qle_trans with q; [apply Hmin, list_elem_of_here | exact Hle].
        -- apply Hmin, list_elem_of_further, Hx.
Qed.

Variable float_of_str : string -> option Q.

Local Abbreviation to_float := (Trainer.to_float float_of_str).
Local Abbreviation prices_of := (Trainer.prices_of float_of_str).

(** The prices are the prices of the entries, and every priced entry has
    its price among them. *)
Lemma prices_of_spec (bazaar : list Json) : forall ps,
  prices_of bazaar = Some ps ->
  (forall q, q ∈ ps ->
     exists items v, JObj items ∈ bazaar /\ dict_get "price" items = Some v /\
                     to_float v = Some q) /\
  (forall items v, JObj items ∈ bazaar -> dict_get "price" items = Some v ->
     v <> JNull -> exists q, to_float v = Some q /\ q ∈ ps).
Proof.
  induction bazaar as [|e bazaar IH]; intros ps H.
  - injection H as <-. split.
    + intros q Hq. apply elem_of_nil in Hq. contradiction.
    + intros items v Hin. apply elem_of_nil in Hin. contradiction.
  - simpl in H. destruct e as [| | | | | |items0]; try discriminate.
    destruct (dict_get "price" items0) as [v0|] eqn:Ep.
    + assert (v0 = JNull \/ v0 <> JNull) as [->|Hnn]
        by (destruct v0; auto; right; discriminate).
      * destruct (IH ps H) as (H1 & H2). split.
        -- intros q Hq. destruct (H1 q Hq) as (items & v & Hin & Hp & Hf).
           exists items, v. split; [apply list_elem_of_further, Hin | auto].
        -- intros items v Hin Hp Hv.
           apply elem_of_cons in Hin as [[= ->] | Hin]; [congruence|].
           apply (H2 items v Hin Hp Hv).
      * assert (H' : match to_float v0 with
                     | Some q => match prices_of bazaar with
                                 | Some qs => Some (q :: qs)
                                 | None => None
                                 end
                     | None => None
                     end = Some ps).
        { destruct v0; try exact H. congruence. }
        clear H. destruct (to_float v0) as [q0|] eqn:Ef; [|discriminate].
        destruct (prices_of bazaar) as [qs|] eqn:Eq; [|discriminate].
        injection H' as <-. destruct (IH qs eq_refl) as (H1 & H2). split.
        -- intros q Hq. apply elem_of_cons in Hq as [-> | Hq].
           ++ exists items0, v0. split; [apply list_elem_of_here | auto].
           ++ destruct (H1 q Hq) as (items & v & Hin & Hp & Hf).
              exists items, v. split; [apply list_elem_of_further, Hin | auto].
        -- intros items v Hin Hp Hv.
           apply elem_of_cons in Hin as [[= ->] | Hin].
           ++ rewrite Ep in Hp. injection Hp as <-.
              exists q0. split; [exact Ef | apply list_elem_of_here].
           ++ destruct (H2 items v Hin Hp Hv) as (q & Hf & Hq).
              exists q. split; [exact Hf | apply list_elem_of_further, Hq].
    + destruct (IH ps H) as (H1 & H2). split.
      * intros q Hq. destruct (H1 q Hq) as (items & v & Hin & Hp & Hf).
        exists items, v. split; [apply list_elem_of_further, Hin | auto].
      * intros items v Hin Hp Hv.
        apply elem_of_cons in Hin as [[= ->] | Hin]; [congruence|].
        apply (H2 items v Hin Hp Hv).
Qed.

(** X19: the lowest bazaar price, when there is one, is the price of an
    entry of the [bazaar] list, and no priced entry of the list is
    cheaper. *)
Theorem lowest_bazaar_price_is_minimum (info : Json) (p : Q) :
  _extract_lowest_bazaar_price float_of_str info = Some p ->
  exists items bazaar,
    info = JObj items /\
    dict_get "bazaar" items = Some (JArr bazaar) /\
    (exists eitems v,
       JObj eitems ∈ bazaar /\ dict_get "price" eitems = Some v /\
       to_float v = Some p) /\
    (forall eitems v,
       JObj eitems ∈ bazaar -> dict_get "price" eitems = Some v -> v <> JNull ->
       exists q, to_float v = Some q /\ p <= q).
Proof.
  intros H.
  destruct info as [| | | | | |items]; try discriminate.
  destruct (dict_get "bazaar" items) as [[| | | | |[|e es]|]|] eqn:Eb;
    try (unfold _extract_lowest_bazaar_price, get in H; rewrite Eb in H; discriminate).
  assert (Hu : _extract_lowest_bazaar_price float_of_str (JObj items) =
               match prices_of (e :: es) with
               | Some (q :: qs) => Some (list_min q qs)
               | _ => None
               end).
  { unfold _extract_lowest_bazaar_price, get. rewrite Eb. reflexivity. }
  rewrite Hu in H. clear Hu.
  destruct (prices_of (e :: es)) as [[|q qs]|] eqn:Ep; try discriminate.
  injection H as <-.
  destruct (prices_of_spec _ _ Ep) as (H1 & H2).
  destruct (list_min_spec qs q) as (Hin & Hmin).
  exists items, (e :: es). split; [reflexivity|]. split; [exact Eb|]. split.
  - apply (H1 _ Hin).
  - intros eitems v Hi Hp Hv. destruct (H2 eitems v Hi Hp Hv) as (x & Hx & Hxin).
    exists x. split; [exact Hx | apply Hmin, Hxin].
Qed.

End TrainerFacts.

(** ** Worked examples of the further properties *)

Lemma unparseable_body_returned_witness :
  exists raw c',
    Api._request loads_example (fun s => s) client_example
                 "user" (Some "123") (Some "bars") None [answer 404 "<html>gone</html>"] =
    Some (Return (JObj [("raw", JStr raw)]), c') /\
    String.prefix raw "<html>gone</html>" = true /\
    _auth_failures c' = 0%Z.
Proof.
  destruct (unparseable_body_returned loads_example (fun s => s) client_example
              "user" (Some "123") (Some "bars") None
              (answer 404 "<html>gone</html>") [] 404%Z "<html>gone</html>")
    as (raw & c' & E & _ & Hp & Hn & _); try reflexivity; try discriminate.
  exists raw, c'. split; [exact E|]. split; [exact Hp | exact Hn].
Defined.

Lemma malformed_error_raises_witness :
  exists c',
    Api._request (fun _ => Some (JObj [("error", JStr "bad")])) (fun s => s)
                 client_example "user" (Some "123") (Some "bars") None
                 [answer 200 "x"] =
    Some (Raise AttributeError, c') /\
    _auth_failures c' = 0%Z.
Proof.
  destruct (malformed_error_raises (fun _ => Some (JObj [("error", JStr "bad")]))
              (fun s => s) client_example "user" (Some "123") (Some "bars") None
              (answer 200 "x") [] 200%Z "x")
    as (c' & E & Hn & _); try reflexivity; try discriminate.
  exists c'. split; [exact E | exact Hn].
Defined.

Lemma one_strike_per_call_witness :
  exists r c',
    Api._request loads_example (fun s => s) client_example
                 "user" (Some "123") (Some "bars") None [answer 401 "denied"] =
    Some (r, c') /\
    (0 <= _auth_failures c' <= 1)%Z.
Proof.
  eexists. eexists.
  assert (E : Api._request loads_example (fun s => s) client_example
                "user" (Some "123") (Some "bars") None [answer 401 "denied"] =
              Some (_, _)) by (vm_compute; reflexivity).
  split; [exact E|].
  apply (one_strike_per_call _ _ _ _ _ _ _ _ _ _ E).
Defined.

Lemma at_most_five_exchanges_witness :
  exists r c',
    Api._request loads_example (fun s => s) client_example
                 "user" (Some "123") (Some "bars") None
                 [failure "timed out"; answer 503 "busy"; answer 200 body_ok] =
    Some (r, c') /\
    (exchanges c' <= exchanges client_example + 5)%nat.
Proof.
  eexists. eexists.
  assert (E : Api._request loads_example (fun s => s) client_example
                "user" (Some "123") (Some "bars") None
                [failure "timed out"; answer 503 "busy"; answer 200 body_ok] =
              Some (_, _)) by (vm_compute; reflexivity).
  split; [exact E|].
  apply (at_most_five_exchanges _ _ _ _ _ _ _ _ _ _ E).
Defined.

Lemma five_failures_exhaust_witness :
  exists c',
    Api._request loads_example (fun s => s) client_example
                 "user" (Some "123") (Some "bars") None
                 [failure "timed out"; answer 429 "slow"; failure "reset";
                  answer 503 "busy"; failure "refused"; answer 200 body_ok] =
    Some (Raise (TransportError "refused"), c') /\
    exchanges c' = 5%nat.
Proof.
  destruct (five_failures_exhaust loads_example (fun s => s) client_example
              "user" (Some "123") (Some "bars") None
              (failure "timed out") (answer 429 "slow") (failure "reset")
              (answer 503 "busy") (failure "refused") [answer 200 body_ok])
    as (c' & E & Hx & _).
  - discriminate.
  - vm_compute. reflexivity.
  - repeat constructor.
  - exists c'. split; [exact E | exact Hx].
Defined.

Lemma backoff_total_bounded_witness :
  exists r c',
    Api._request loads_example (fun s => s) client_example
                 "user" (Some "123") (Some "bars") None
                 [answer 429 "slow"; answer 429 "slow"; answer 200 body_ok] =
    Some (r, c') /\
    (slept c' <= slept client_example + (69 # 4))%Q.
Proof.
  eexists. eexists.
  assert (E : Api._request loads_example (fun s => s) client_example
                "user" (Some "123") (Some "bars") None
                [answer 429 "slow"; answer 429 "slow"; answer 200 body_ok] =
              Some (_, _)) by (vm_compute; reflexivity).
  split; [exact E|].
  apply (backoff_total_bounded _ _ _ _ _ _ _ _ _ _ ) with (2 := E).
  repeat constructor; vm_compute; discriminate.
Defined.

Lemma disabled_blocks_endpoints_witness :
  call_endpoint loads_example (fun s => s) client_disabled_example
                (GetMarketItem 108 "bazaar") [answer 200 body_ok] =
  Some (Raise auth_disabled_error, client_disabled_example).
Proof.
  destruct (disabled_blocks_endpoints loads_example (fun s => s)
              client_disabled_example (GetMarketItem 108 "bazaar")
              [answer 200 body_ok] 1 150 true 1000%N)
    as (_ & H & _).
  - discriminate.
  - vm_compute. reflexivity.
  - apply (H "123"); [reflexivity | discriminate].
Defined.

Lemma lowest_bazaar_price_is_minimum_witness :
  Trainer._extract_lowest_bazaar_price (fun _ => None)
    (JObj [("bazaar", JArr [JObj [("price", JInt 50000)];
                            JObj [("price", JInt 40000)]])]) = Some 40000%Q /\
  exists items bazaar,
    JObj [("bazaar", JArr [JObj [("price", JInt 50000)];
                           JObj [("price", JInt 40000)]])] = JObj items /\
    dict_get "bazaar" items = Some (JArr bazaar).
Proof.
  assert (E : Trainer._extract_lowest_bazaar_price (fun _ => None)
                (JObj [("bazaar", JArr [JObj [("price", JInt 50000)];
                                        JObj [("price", JInt 40000)]])]) =
              Some 40000%Q) by (vm_compute; reflexivity).
  split; [exact E|].
  destruct (lowest_bazaar_price_is_minimum _ _ _ E) as (items & bazaar & H1 & H2 & _).
  exists items, bazaar. split; assumption.
Defined.
